(** * XNavLib: the roboRIO client library of the XNav vision system

    A shallow embedding of [roborio_library/include/XNavLib.h] and
    [roborio_library/src/XNavLib.cpp], in the configuration that is built on
    the robot ([WPILIB_AVAILABLE] defined), followed by the properties of the
    query facade.

    The NetworkTables transport (ntcore) is not part of the library.  It is
    modelled as the topic fabric the library programs against: a store of the
    last value received per topic name, typed subscribers that read the store
    and fall back to a default, publishers that write it, and the list of
    live connections. *)

From Stdlib Require Import ZArith PrimFloat Ascii String.
From stdpp Require Import gmap strings list pretty.

Local Open Scope Z_scope.

(** ** Scalars *)

(** A C++ [double] is a binary64 value. *)
Abbreviation double := float (only parsing).

(** [int] is 32 bits wide on the roboRIO; the integer topics carry
    [int64_t].  [static_cast<int>] keeps the low 32 bits, read as a two's
    complement number. *)
Definition INT_MIN : Z := - 2 ^ 31.
Definition INT_MAX : Z := 2 ^ 31 - 1.

Definition static_cast_int (v : Z) : Z := (v + 2 ^ 31) mod 2 ^ 32 - 2 ^ 31.

(** [std::to_string(int)]: decimal digits, a leading minus sign for negative
    numbers. *)
Definition to_string (v : Z) : string := pretty v.

(** ** Value types (XNavLib.h) *)

Module TagResult.
Record t : Type := mk {
  id : Z;
  tx : double;
  ty : double;
  x : double;
  y : double;
  z : double;
  distance : double;
  yaw : double;
  pitch : double;
  roll : double
}.

(** [TagResult{}]: the default member initialisers. *)
Definition default : t :=
  mk (-1) 0%float 0%float 0%float 0%float 0%float 0%float 0%float 0%float 0%float.
End TagResult.
Abbreviation TagResult := TagResult.t.

Module RobotPose.
Record t : Type := mk {
  x : double;
  y : double;
  z : double;
  roll : double;
  pitch : double;
  yaw_deg : double;
  valid : bool
}.

Definition default : t :=
  mk 0%float 0%float 0%float 0%float 0%float 0%float false.
End RobotPose.
Abbreviation RobotPose := RobotPose.t.

Module OffsetPoint.
Record t : Type := mk {
  tag_id : Z;
  x : double;
  y : double;
  z : double;
  direct_distance : double;
  tx : double;
  ty : double;
  valid : bool
}.

Definition default : t :=
  mk (-1) 0%float 0%float 0%float 0%float 0%float 0%float false.
End OffsetPoint.
Abbreviation OffsetPoint := OffsetPoint.t.

Module SystemStatus.
Record t : Type := mk {
  status : string;
  fps : double;
  latency_ms : double;
  num_targets : Z;
  nt_connected : bool
}.

Definition default : t := mk "" 0%float 0%float 0 false.
End SystemStatus.
Abbreviation SystemStatus := SystemStatus.t.

(** ** The topic fabric *)

(** The value a topic carries. *)
Inductive Value : Type :=
  | VBoolean (b : bool)
  | VInteger (v : Z)
  | VDouble (d : double)
  | VString (s : string)
  | VDoubleArray (l : list double)
  | VIntegerArray (l : list Z).

(** The scalar types a typed subscriber can read.  [nt_zero] is the default
    of a default-constructed subscriber; [nt_unpack] fails on a value of
    another type, which a typed subscriber never delivers. *)
Class NTType (T : Type) : Type := {
  nt_zero : T;
  nt_pack : T → Value;
  nt_unpack : Value → option T
}.

#[export] Instance NT_bool : NTType bool :=
  {| nt_zero := false; nt_pack := VBoolean;
     nt_unpack v := match v with VBoolean b => Some b | _ => None end |}.
#[export] Instance NT_int : NTType Z :=
  {| nt_zero := 0; nt_pack := VInteger;
     nt_unpack v := match v with VInteger n => Some n | _ => None end |}.
#[export] Instance NT_double : NTType double :=
  {| nt_zero := 0%float; nt_pack := VDouble;
     nt_unpack v := match v with VDouble d => Some d | _ => None end |}.
#[export] Instance NT_string : NTType string :=
  {| nt_zero := ""; nt_pack := VString;
     nt_unpack v := match v with VString s => Some s | _ => None end |}.
#[export] Instance NT_double_array : NTType (list double) :=
  {| nt_zero := []; nt_pack := VDoubleArray;
     nt_unpack v := match v with VDoubleArray l => Some l | _ => None end |}.
#[export] Instance NT_int_array : NTType (list Z) :=
  {| nt_zero := []; nt_pack := VIntegerArray;
     nt_unpack v := match v with VIntegerArray l => Some l | _ => None end |}.

(** The state of the default [nt::NetworkTableInstance] of the process. *)
Record NetworkTableInstance : Type := mkInst {
  inst_values : gmap string Value;  (* last value received, per topic name *)
  inst_connections : list string;   (* remote ids of the live connections *)
  inst_server : string;             (* [SetServer] *)
  inst_client : option string       (* identity of the running client *)
}.

(** A table is its path.  [GetTable] puts the leading separator. *)
Definition GetTable (key : string) : string :=
  match key with
  | EmptyString => ""
  | String c rest =>
      if Ascii.eqb c "/"%char
      then match rest with EmptyString => "" | _ => key end
      else "/" +:+ key
  end.

Definition GetSubTable (table key : string) : string := table +:+ "/" +:+ key.
Definition GetTopic (table name : string) : string := table +:+ "/" +:+ name.

(** A subscriber: the topic it is subscribed to ([None] for a
    default-constructed one, whose handle is invalid) and its default. *)
Record Subscriber (T : Type) : Type := mkSub {
  sub_topic : option string;
  sub_default : T
}.
Arguments mkSub {T} _ _.
Arguments sub_topic {T} _.
Arguments sub_default {T} _.

Definition unbound {T} `{NTType T} : Subscriber T := mkSub None nt_zero.

(** [Subscribe] gives the handle only: the registration it makes with the
    transport is not kept in [NetworkTableInstance], so nothing below speaks
    of the subscriptions an instance holds. *)
Definition Subscribe {T} `{NTType T} (topic : string) (defaultValue : T)
  : Subscriber T := mkSub (Some topic) defaultValue.

(** [sub.Get(defaultValue)]: the last value of the topic, [defaultValue]
    when there is none. *)
Definition GetOr {T} `{NTType T} (sub : Subscriber T)
    (n : NetworkTableInstance) (defaultValue : T) : T :=
  match sub_topic sub with
  | None => defaultValue
  | Some name =>
      match inst_values n !! name with
      | Some v => default defaultValue (nt_unpack v)
      | None => defaultValue
      end
  end.

(** [sub.Get()]: [Get] with the default given to [Subscribe]. *)
Definition Get {T} `{NTType T} (sub : Subscriber T)
    (n : NetworkTableInstance) : T := GetOr sub n (sub_default sub).

(** A publisher: the topic it publishes to, if bound. *)
Record Publisher (T : Type) : Type := mkPub { pub_topic : option string }.
Arguments mkPub {T} _.
Arguments pub_topic {T} _.

Definition Publish {T} (topic : string) : Publisher T := mkPub (Some topic).

Definition set_values (vs : gmap string Value) (n : NetworkTableInstance)
  : NetworkTableInstance :=
  mkInst vs (inst_connections n) (inst_server n) (inst_client n).

Definition Set_ {T} `{NTType T} (pub : Publisher T) (v : T)
    (n : NetworkTableInstance) : NetworkTableInstance :=
  match pub_topic pub with
  | None => n
  | Some name => set_values (<[name := nt_pack v]> (inst_values n)) n
  end.

Definition SetServer (server : string) (n : NetworkTableInstance)
  : NetworkTableInstance :=
  mkInst (inst_values n) (inst_connections n) server (inst_client n).

(** Starting a client while one runs changes nothing. *)
Definition StartClient4 (identity : string) (n : NetworkTableInstance)
  : NetworkTableInstance :=
  match inst_client n with
  | Some _ => n
  | None => mkInst (inst_values n) (inst_connections n) (inst_server n)
              (Some identity)
  end.

Definition GetConnections (n : NetworkTableInstance) : list string :=
  inst_connections n.

(** ** The implementation object (XNavLib.cpp, [struct XNav::Impl]) *)

Module TagSubs.
(** The nine per-tag subscribers. *)
Record t : Type := mk {
  tx : Subscriber double;
  ty : Subscriber double;
  x : Subscriber double;
  y : Subscriber double;
  z : Subscriber double;
  distance : Subscriber double;
  yaw : Subscriber double;
  pitch : Subscriber double;
  roll : Subscriber double
}.
End TagSubs.
Abbreviation TagSubs := TagSubs.t.

(** The callable held by a [std::function<void(const std::vector<TagResult>&)>].
    What it does belongs to the application; the library can only store it
    and call it, so it is known by a name, and a call is recorded with its
    argument in the [invoked] log of the world. *)
Definition Callback : Type := nat.

(** The handle of the default instance. *)
Inductive InstHandle : Type := DefaultInstance.

Record Impl : Type := mkImpl {
  table_name : string;
  on_new_targets : option Callback;
  data_mutex : bool;                      (* [true] while a thread holds it *)
  inst : option InstHandle;               (* [None]: invalid handle *)
  table : option string;                  (* [None]: null [shared_ptr] *)
  sub_has_target : Subscriber bool;
  sub_num_targets : Subscriber Z;
  sub_primary_id : Subscriber Z;
  sub_status : Subscriber string;
  sub_fps : Subscriber double;
  sub_latency : Subscriber double;
  sub_robot_pose : Subscriber (list double);
  sub_offset_valid : Subscriber bool;
  sub_offset_x : Subscriber double;
  sub_offset_y : Subscriber double;
  sub_offset_z : Subscriber double;
  sub_offset_dist : Subscriber double;
  sub_offset_tx : Subscriber double;
  sub_offset_ty : Subscriber double;
  sub_offset_tagid : Subscriber Z;
  pub_turret_angle : Publisher double;
  pub_turret_enabled : Publisher bool;
  pub_match_mode : Publisher bool;
  tag_subs : gmap Z TagSubs;
  sub_tag_ids : Subscriber (list Z)
}.

(** What a program sees: the implementation object behind [m_impl], the
    default instance of the transport, and the calls made so far to the
    stored callback. *)
Record World : Type := mkWorld {
  impl : Impl;
  nt : NetworkTableInstance;
  invoked : list (Callback * list TagResult)
}.

(** Member functions that touch [tag_subs] change the implementation object
    although they are [const] on the facade, and [GetTagSubs] dereferences
    [table], which is null until [Init] has run.  They are state
    transformers that may fail: [None] stands for the undefined behaviour of
    dereferencing the null pointer. *)
Definition M (A : Type) : Type := World → option (A * World).

#[export] Instance M_ret : MRet M := λ A a w, Some (a, w).
#[export] Instance M_bind : MBind M := λ A B f m w,
  match m w with
  | Some (a, w') => f a w'
  | None => None
  end.
#[export] Instance M_fmap : FMap M := λ A B f m w,
  match m w with
  | Some (a, w') => Some (f a, w')
  | None => None
  end.

(** Reading a component of the world. *)
Definition gets {A} (f : World → A) : M A := λ w, Some (f w, w).

(** The value a computation returns, and the world it leaves. *)
Definition eval {A} (m : M A) (w : World) : option A := fst <$> m w.
Definition exec {A} (m : M A) (w : World) : option World := snd <$> m w.

Definition set_tag_subs (m : gmap Z TagSubs) (i : Impl) : Impl :=
  mkImpl (table_name i) (on_new_targets i) (data_mutex i) (inst i) (table i)
    (sub_has_target i) (sub_num_targets i) (sub_primary_id i) (sub_status i)
    (sub_fps i) (sub_latency i) (sub_robot_pose i)
    (sub_offset_valid i) (sub_offset_x i) (sub_offset_y i) (sub_offset_z i)
    (sub_offset_dist i) (sub_offset_tx i) (sub_offset_ty i)
    (sub_offset_tagid i)
    (pub_turret_angle i) (pub_turret_enabled i) (pub_match_mode i)
    m (sub_tag_ids i).

Definition set_on_new_targets (cb : option Callback) (i : Impl) : Impl :=
  mkImpl (table_name i) cb (data_mutex i) (inst i) (table i)
    (sub_has_target i) (sub_num_targets i) (sub_primary_id i) (sub_status i)
    (sub_fps i) (sub_latency i) (sub_robot_pose i)
    (sub_offset_valid i) (sub_offset_x i) (sub_offset_y i) (sub_offset_z i)
    (sub_offset_dist i) (sub_offset_tx i) (sub_offset_ty i)
    (sub_offset_tagid i)
    (pub_turret_angle i) (pub_turret_enabled i) (pub_match_mode i)
    (tag_subs i) (sub_tag_ids i).

(** [Impl::Init]: binds every subscriber and publisher again, whatever they
    were, and leaves [table_name], [on_new_targets], [data_mutex] and
    [tag_subs] alone. *)
Definition Impl_Init (server : string) (w : World) : World :=
  let i := impl w in
  let tbl := GetTable (table_name i) in
  let op := GetSubTable tbl "offsetPoint" in
  let input := GetSubTable tbl "input" in
  let i' :=
    {| table_name := table_name i;
       on_new_targets := on_new_targets i;
       data_mutex := data_mutex i;
       inst := Some DefaultInstance;
       table := Some tbl;
       sub_has_target := Subscribe (GetTopic tbl "hasTarget") false;
       sub_num_targets := Subscribe (GetTopic tbl "numTargets") 0;
       sub_primary_id := Subscribe (GetTopic tbl "primaryTagId") (-1);
       sub_status := Subscribe (GetTopic tbl "status") "unknown";
       sub_fps := Subscribe (GetTopic tbl "fps") 0%float;
       sub_latency := Subscribe (GetTopic tbl "latencyMs") 0%float;
       sub_robot_pose := Subscribe (GetTopic tbl "robotPose") [];
       sub_tag_ids := Subscribe (GetTopic tbl "tagIds") [];
       sub_offset_valid := Subscribe (GetTopic op "valid") false;
       sub_offset_x := Subscribe (GetTopic op "x") 0%float;
       sub_offset_y := Subscribe (GetTopic op "y") 0%float;
       sub_offset_z := Subscribe (GetTopic op "z") 0%float;
       sub_offset_dist := Subscribe (GetTopic op "directDistance") 0%float;
       sub_offset_tx := Subscribe (GetTopic op "tx") 0%float;
       sub_offset_ty := Subscribe (GetTopic op "ty") 0%float;
       sub_offset_tagid := Subscribe (GetTopic op "tag_id") (-1);
       pub_turret_angle := Publish (GetTopic input "turretAngle");
       pub_turret_enabled := Publish (GetTopic input "turretEnabled");
       pub_match_mode := Publish (GetTopic input "matchMode");
       tag_subs := tag_subs i |} in
  let n := nt w in
  let n := if decide (server = "") then n else SetServer server n in
  let n := StartClient4 "XNavLib" n in
  mkWorld i' n (invoked w).

(** Lines 104 to 113: the subscribers of one tag's subtable. *)
Definition NewTagSubs (sub : string) : TagSubs :=
  {| TagSubs.tx := Subscribe (GetTopic sub "tx") 0%float;
     TagSubs.ty := Subscribe (GetTopic sub "ty") 0%float;
     TagSubs.x := Subscribe (GetTopic sub "x") 0%float;
     TagSubs.y := Subscribe (GetTopic sub "y") 0%float;
     TagSubs.z := Subscribe (GetTopic sub "z") 0%float;
     TagSubs.distance := Subscribe (GetTopic sub "distance") 0%float;
     TagSubs.yaw := Subscribe (GetTopic sub "yaw") 0%float;
     TagSubs.pitch := Subscribe (GetTopic sub "pitch") 0%float;
     TagSubs.roll := Subscribe (GetTopic sub "roll") 0%float |}.

Definition GetTagSubs (id : Z) : M TagSubs := λ w,
  match tag_subs (impl w) !! id with
  | Some ts => Some (ts, w)
  | None =>
      match table (impl w) with
      | None => None
      | Some tbl =>
          let sub := GetSubTable tbl ("targets/" +:+ to_string id) in
          let ts := NewTagSubs sub in
          Some (ts, mkWorld (set_tag_subs (<[id := ts]> (tag_subs (impl w)))
                               (impl w))
                      (nt w) (invoked w))
      end
  end.

(** The record [ReadTag] fills from a subscriber set. *)
Definition read_subs (id : Z) (ts : TagSubs) (n : NetworkTableInstance)
  : TagResult :=
  {| TagResult.id := id;
     TagResult.tx := Get (TagSubs.tx ts) n;
     TagResult.ty := Get (TagSubs.ty ts) n;
     TagResult.x := Get (TagSubs.x ts) n;
     TagResult.y := Get (TagSubs.y ts) n;
     TagResult.z := Get (TagSubs.z ts) n;
     TagResult.distance := Get (TagSubs.distance ts) n;
     TagResult.yaw := Get (TagSubs.yaw ts) n;
     TagResult.pitch := Get (TagSubs.pitch ts) n;
     TagResult.roll := Get (TagSubs.roll ts) n |}.

Definition ReadTag (id : Z) : M TagResult :=
  ts ← GetTagSubs id;
  n ← gets nt;
  mret (read_subs id ts n).

(** ** The facade (XNavLib.cpp, [class XNav]) *)

(** The constructor: a default-constructed [Impl] with its table name. *)
Definition XNav (name : string) (n : NetworkTableInstance) : World :=
  mkWorld
    {| table_name := name;
       on_new_targets := None;
       data_mutex := false;
       inst := None;
       table := None;
       sub_has_target := unbound;
       sub_num_targets := unbound;
       sub_primary_id := unbound;
       sub_status := unbound;
       sub_fps := unbound;
       sub_latency := unbound;
       sub_robot_pose := unbound;
       sub_offset_valid := unbound;
       sub_offset_x := unbound;
       sub_offset_y := unbound;
       sub_offset_z := unbound;
       sub_offset_dist := unbound;
       sub_offset_tx := unbound;
       sub_offset_ty := unbound;
       sub_offset_tagid := unbound;
       pub_turret_angle := mkPub None;
       pub_turret_enabled := mkPub None;
       pub_match_mode := mkPub None;
       tag_subs := ∅;
       sub_tag_ids := unbound |}
    n [].

(** [Init()] and [Init(server_address)]. *)
Definition Init0 (w : World) : World := Impl_Init "" w.
Definition Init (server_address : string) (w : World) : World :=
  Impl_Init server_address w.

Definition HasTarget (w : World) : bool :=
  Get (sub_has_target (impl w)) (nt w).

Definition GetNumTargets (w : World) : Z :=
  static_cast_int (Get (sub_num_targets (impl w)) (nt w)).

(** The loop of [GetTagIds]: one [push_back] per element of [raw]. *)
Definition GetTagIds (w : World) : list Z :=
  let raw := Get (sub_tag_ids (impl w)) (nt w) in
  foldl (λ ids v, ids ++ [static_cast_int v]) [] raw.

Definition GetPrimaryTarget : M TagResult := λ w,
  let id := static_cast_int (GetOr (sub_primary_id (impl w)) (nt w) (-1)) in
  if decide (id < 0) then Some (TagResult.default, w)
  else ReadTag id w.

(** [std::find(first, last, v)]: the position of the first element equal to
    [v]; [None] is the end iterator. *)
Fixpoint std_find (l : list Z) (v : Z) : option nat :=
  match l with
  | [] => None
  | a :: l' => if decide (a = v) then Some 0%nat else S <$> std_find l' v
  end.

Definition GetTarget (tag_id : Z) : M (option TagResult) := λ w,
  let ids := GetTagIds w in
  match std_find ids tag_id with
  | None => Some (None, w)
  | Some _ => (Some <$> ReadTag tag_id) w
  end.

(** The loop of [GetAllTargets]: one [ReadTag] and one [push_back] per id. *)
Fixpoint GetAllTargets_loop (ids : list Z) (results : list TagResult)
  : M (list TagResult) :=
  match ids with
  | [] => mret results
  | id :: rest =>
      t ← ReadTag id;
      GetAllTargets_loop rest (results ++ [t])
  end.

Definition GetAllTargets : M (list TagResult) := λ w,
  GetAllTargets_loop (GetTagIds w) [] w.

(** [data[i]], used below the test [data.size() >= 6] only. *)
Definition at_ (data : list double) (i : nat) : double := nth i data 0%float.

Definition GetRobotPose (w : World) : RobotPose :=
  let pose := RobotPose.default in
  let data := GetOr (sub_robot_pose (impl w)) (nt w) [] in
  if decide (6 ≤ length data)%nat then
    {| RobotPose.x := at_ data 0;
       RobotPose.y := at_ data 1;
       RobotPose.z := at_ data 2;
       RobotPose.roll := at_ data 3;
       RobotPose.pitch := at_ data 4;
       RobotPose.yaw_deg := at_ data 5;
       RobotPose.valid := true |}
  else pose.

Definition GetOffsetPoint (w : World) : OffsetPoint :=
  let i := impl w in
  {| OffsetPoint.valid := GetOr (sub_offset_valid i) (nt w) false;
     OffsetPoint.tag_id :=
       static_cast_int (GetOr (sub_offset_tagid i) (nt w) (-1));
     OffsetPoint.x := GetOr (sub_offset_x i) (nt w) 0%float;
     OffsetPoint.y := GetOr (sub_offset_y i) (nt w) 0%float;
     OffsetPoint.z := GetOr (sub_offset_z i) (nt w) 0%float;
     OffsetPoint.direct_distance := GetOr (sub_offset_dist i) (nt w) 0%float;
     OffsetPoint.tx := GetOr (sub_offset_tx i) (nt w) 0%float;
     OffsetPoint.ty := GetOr (sub_offset_ty i) (nt w) 0%float |}.

Definition SetTurretAngle (angle_deg : double) (w : World) : World :=
  mkWorld (impl w) (Set_ (pub_turret_angle (impl w)) angle_deg (nt w))
    (invoked w).

Definition SetTurretEnabled (enabled : bool) (w : World) : World :=
  mkWorld (impl w) (Set_ (pub_turret_enabled (impl w)) enabled (nt w))
    (invoked w).

Definition SetMatchMode (enabled : bool) (w : World) : World :=
  mkWorld (impl w) (Set_ (pub_match_mode (impl w)) enabled (nt w))
    (invoked w).

Definition IsConnected (w : World) : bool :=
  match inst (impl w) with
  | None => false
  | Some DefaultInstance =>
      negb (bool_decide (GetConnections (nt w) = []))
  end.

Definition GetStatus (w : World) : SystemStatus :=
  {| SystemStatus.status := GetOr (sub_status (impl w)) (nt w) "unknown";
     SystemStatus.fps := GetOr (sub_fps (impl w)) (nt w) 0%float;
     SystemStatus.latency_ms := GetOr (sub_latency (impl w)) (nt w) 0%float;
     SystemStatus.num_targets := GetNumTargets w;
     SystemStatus.nt_connected := IsConnected w |}.

Definition OnNewTargets (callback : Callback) (w : World) : World :=
  mkWorld (set_on_new_targets (Some callback) (impl w)) (nt w) (invoked w).

(** ** Programs and the environment *)

(** The transport stores a value that the coprocessor published.  [Init]
    registers no listener with the instance (there is no [AddListener] call
    in the library), so nothing of the library runs when a value arrives:
    the store changes and nothing else does. *)
Definition receive (topic : string) (v : Value) (w : World) : World :=
  mkWorld (impl w) (set_values (<[topic := v]> (inst_values (nt w))) (nt w))
    (invoked w).

(** The set of live connections changes. *)
Definition connections_changed (peers : list string) (w : World) : World :=
  mkWorld (impl w)
    (mkInst (inst_values (nt w)) peers (inst_server (nt w))
       (inst_client (nt w)))
    (invoked w).

(** A call of the application on the facade. *)
Inductive Call : Type :=
  | CallInit0
  | CallInit (server_address : string)
  | CallHasTarget
  | CallGetNumTargets
  | CallGetTagIds
  | CallGetPrimaryTarget
  | CallGetTarget (tag_id : Z)
  | CallGetAllTargets
  | CallGetRobotPose
  | CallGetOffsetPoint
  | CallSetTurretAngle (angle_deg : double)
  | CallSetTurretEnabled (enabled : bool)
  | CallSetMatchMode (enabled : bool)
  | CallGetStatus
  | CallIsConnected
  | CallOnNewTargets (callback : Callback).

Inductive Event : Type :=
  | Api (c : Call)
  | Receive (topic : string) (v : Value)
  | Connections (peers : list string).

(** The world after a call; [None] when the call has undefined behaviour. *)
Definition call (c : Call) (w : World) : option World :=
  match c with
  | CallInit0 => Some (Init0 w)
  | CallInit s => Some (Init s w)
  | CallGetPrimaryTarget => exec GetPrimaryTarget w
  | CallGetTarget tag_id => exec (GetTarget tag_id) w
  | CallGetAllTargets => exec GetAllTargets w
  | CallSetTurretAngle a => Some (SetTurretAngle a w)
  | CallSetTurretEnabled b => Some (SetTurretEnabled b w)
  | CallSetMatchMode b => Some (SetMatchMode b w)
  | CallOnNewTargets cb => Some (OnNewTargets cb w)
  | CallHasTarget | CallGetNumTargets | CallGetTagIds | CallGetRobotPose
  | CallGetOffsetPoint | CallGetStatus | CallIsConnected => Some w
  end.

Definition step (e : Event) (w : World) : option World :=
  match e with
  | Api c => call c w
  | Receive topic v => Some (receive topic v w)
  | Connections peers => Some (connections_changed peers w)
  end.

Fixpoint run (es : list Event) (w : World) : option World :=
  match es with
  | [] => Some w
  | e :: es' =>
      match step e w with
      | Some w' => run es' w'
      | None => None
      end
  end.

(** The worlds a program can be in: a facade was constructed, and calls and
    arrivals followed in some order. *)
Definition reachable (w : World) : Prop :=
  ∃ name n es, run es (XNav name n) = Some w.

(** ** Invariants *)

(** Binding again changes nothing in the implementation object. *)
Definition initialized (w : World) : Prop := impl (Init0 w) = impl w.

(** Nothing is bound and nothing is cached. *)
Definition pristine (w : World) : Prop :=
  set_on_new_targets None (impl w) = impl (XNav (table_name (impl w)) (nt w)).

(** Every cached subscriber set is the one [GetTagSubs] builds for its key. *)
Definition cache_ok (w : World) : Prop :=
  ∀ id ts, tag_subs (impl w) !! id = Some ts →
    ∃ tbl, table (impl w) = Some tbl ∧
           ts = NewTagSubs (GetSubTable tbl ("targets/" +:+ to_string id)).

Definition wf (w : World) : Prop :=
  cache_ok w ∧ (pristine w ∨ initialized w).

(** ** Example programs *)

(** No value received, no connection. *)
Definition no_traffic : NetworkTableInstance := mkInst ∅ [] "" None.
Definition fresh : World := XNav "XNav" no_traffic.
Definition started : World := Init0 fresh.

(** The world a program leaves, [fresh] if it has undefined behaviour. *)
Definition after (es : list Event) : World := default fresh (run es fresh).

(** One tag in view: tag 7 is the primary target. *)
Definition frame_tag7 : list Event :=
  [ Receive "/XNav/hasTarget" (VBoolean true);
    Receive "/XNav/numTargets" (VInteger 1);
    Receive "/XNav/tagIds" (VIntegerArray [7]);
    Receive "/XNav/primaryTagId" (VInteger 7);
    Receive "/XNav/targets/7/tx" (VDouble 3.25%float);
    Receive "/XNav/targets/7/ty" (VDouble (-1.5)%float);
    Receive "/XNav/targets/7/x" (VDouble 0%float);
    Receive "/XNav/targets/7/y" (VDouble 0%float);
    Receive "/XNav/targets/7/z" (VDouble 2.5%float);
    Receive "/XNav/targets/7/distance" (VDouble 2.5%float);
    Receive "/XNav/targets/7/yaw" (VDouble 0.5%float);
    Receive "/XNav/targets/7/pitch" (VDouble 0%float);
    Receive "/XNav/targets/7/roll" (VDouble 0%float) ].

Definition tag7 : TagResult :=
  TagResult.mk 7 3.25%float (-1.5)%float 0%float 0%float 2.5%float 2.5%float
    0.5%float 0%float 0%float.

Definition one_tag : World := after (Api CallInit0 :: frame_tag7).

(** Tag 7 was looked up while in view, then left the view: the next frame
    has an empty id list, and [primaryTagId] and the topics of the tag keep
    their last values. *)
Definition tag7_gone : list Event :=
  Api CallInit0 :: frame_tag7 ++
  [ Api (CallGetTarget 7);
    Receive "/XNav/hasTarget" (VBoolean false);
    Receive "/XNav/numTargets" (VInteger 0);
    Receive "/XNav/tagIds" (VIntegerArray []) ].

Definition stale : World := after tag7_gone.

(** The frame of tag 7, with an id list whose one element, 2^32 + 7, does
    not fit in an [int]. *)
Definition id_wraps : World :=
  after (Api CallInit0 :: frame_tag7 ++
         [ Receive "/XNav/tagIds" (VIntegerArray [4294967303]) ]).

(** The frame of tag 7, with a primary id of 2^31, and of 2^32 + 7. *)
Definition primary_wraps_negative : World :=
  after (Api CallInit0 :: frame_tag7 ++
         [ Receive "/XNav/primaryTagId" (VInteger 2147483648) ]).

Definition primary_wraps_to_7 : World :=
  after (Api CallInit0 :: frame_tag7 ++
         [ Receive "/XNav/primaryTagId" (VInteger 4294967303) ]).

(** A negative element in the published id list. *)
Definition negative_id : World :=
  after [ Api CallInit0; Receive "/XNav/tagIds" (VIntegerArray [-5]) ].

(** Telemetry outside the documented ranges. *)
Definition odd_telemetry : World :=
  after [ Api CallInit0;
          Receive "/XNav/status" (VString "calibrating");
          Receive "/XNav/fps" (VDouble (-1)%float);
          Receive "/XNav/latencyMs" (VDouble (-0.5)%float);
          Receive "/XNav/numTargets" (VInteger (-3)) ].

(** Telemetry within the documented ranges. *)
Definition healthy : World :=
  after [ Api CallInit0;
          Receive "/XNav/status" (VString "running");
          Receive "/XNav/fps" (VDouble 30%float);
          Receive "/XNav/latencyMs" (VDouble 12.5%float);
          Receive "/XNav/numTargets" (VInteger 1) ].

(** The count and the id list disagree. *)
Definition count_mismatch : World :=
  after [ Api CallInit0;
          Receive "/XNav/numTargets" (VInteger 2);
          Receive "/XNav/tagIds" (VIntegerArray [7]) ].

(** A facade constructed while the default instance already holds a frame
    and a connection. *)
Definition late_facade : World :=
  XNav "XNav"
    (mkInst (inst_values (nt one_tag)) ["coprocessor"] "" (Some "other")).

(** An offset point that is not valid, with its last numbers. *)
Definition offset_invalid : World :=
  after [ Api CallInit0;
          Receive "/XNav/offsetPoint/valid" (VBoolean false);
          Receive "/XNav/offsetPoint/tag_id" (VInteger 4);
          Receive "/XNav/offsetPoint/x" (VDouble 0.5%float);
          Receive "/XNav/offsetPoint/y" (VDouble (-0.25)%float);
          Receive "/XNav/offsetPoint/z" (VDouble 3%float);
          Receive "/XNav/offsetPoint/directDistance" (VDouble 3.125%float);
          Receive "/XNav/offsetPoint/tx" (VDouble 9.5%float);
          Receive "/XNav/offsetPoint/ty" (VDouble (-4.75)%float) ].

(** The same frame reached another way: a callback is stored, the server
    address is given, nothing is cached, and a topic of another program is
    on the instance. *)
Definition other_history : World :=
  after (Api (CallOnNewTargets 5%nat) :: Api (CallInit "10.0.0.2") ::
         frame_tag7 ++ [ Receive "/SmartDashboard/auto" (VInteger 1) ]).

(** Tag 7 has been looked up while in view. *)
Definition looked_up : World :=
  after (Api CallInit0 :: frame_tag7 ++ [ Api (CallGetTarget 7) ]).

(** What follows in the example of a kept cache entry: the tag leaves the
    view, the facade is initialised again with a server address, and all
    targets are read. *)
Definition later_program : list Event :=
  [ Receive "/XNav/tagIds" (VIntegerArray [3]);
    Api (CallInit "10.0.0.2");
    Api CallGetAllTargets ].

(** A callback is registered, replaced, and a frame arrives. *)
Definition callback_program : list Event :=
  Api CallInit0 :: Api (CallOnNewTargets 1%nat) ::
  Api (CallOnNewTargets 2%nat) :: frame_tag7.

(** ** What the documentation promises of a status record *)

(** The values the header lists for [SystemStatus::status], and the default
    [GetStatus] passes to the subscriber. *)
Definition status_vocabulary : list string :=
  ["running"; "starting"; "error"; "unknown"].

Definition status_in_range (s : SystemStatus) : Prop :=
  PrimFloat.leb 0%float (SystemStatus.fps s) = true ∧
  PrimFloat.leb 0%float (SystemStatus.latency_ms s) = true ∧
  0 ≤ SystemStatus.num_targets s ∧
  SystemStatus.status s ∈ status_vocabulary.

(** ** [GetTagSubs] statement by statement, for two application threads *)

(** Where a thread stands inside [GetTagSubs(id)]. *)
Inductive Pc : Type :=
  | PcFind                     (* line 101: [tag_subs.find(id)] *)
  | PcSubscribe                (* lines 103 to 113, after a miss *)
  | PcInsert (ts : TagSubs)    (* line 114: [tag_subs[id] = std::move(ts)] *)
  | PcReturn                   (* line 115: [return tag_subs[id]] *)
  | PcDone (ts : TagSubs).     (* returned *)

(** One statement of a thread.  No statement of [GetTagSubs] names
    [data_mutex]. *)
Definition thread_step (id : Z) (pc : Pc) (w : World) : option (Pc * World) :=
  match pc with
  | PcFind =>
      match tag_subs (impl w) !! id with
      | Some ts => Some (PcDone ts, w)
      | None => Some (PcSubscribe, w)
      end
  | PcSubscribe =>
      match table (impl w) with
      | None => None
      | Some tbl =>
          Some (PcInsert
                  (NewTagSubs (GetSubTable tbl ("targets/" +:+ to_string id))),
                w)
      end
  | PcInsert ts =>
      Some (PcReturn,
            mkWorld (set_tag_subs (<[id := ts]> (tag_subs (impl w))) (impl w))
              (nt w) (invoked w))
  | PcReturn =>
      match tag_subs (impl w) !! id with
      | Some ts => Some (PcDone ts, w)
      | None => None
      end
  | PcDone _ => None
  end.

(** A thread alone, run to its return. *)
Fixpoint thread_run (fuel : nat) (id : Z) (pc : Pc) (w : World)
  : option (TagSubs * World) :=
  match pc with
  | PcDone ts => Some (ts, w)
  | _ =>
      match fuel with
      | O => None
      | S fuel' =>
          match thread_step id pc w with
          | Some (pc', w') => thread_run fuel' id pc' w'
          | None => None
          end
      end
  end.

(** A thread is between the lookup that missed and its insertion. *)
Definition in_insertion (pc : Pc) : bool :=
  match pc with
  | PcSubscribe | PcInsert _ => true
  | _ => false
  end.

Inductive Tid : Type := ThreadA | ThreadB.

Record Config : Type := mkConfig {
  pc_a : Pc;
  pc_b : Pc;
  shared : World
}.

(** Thread [t] executes its next statement; [ids] are the arguments of the
    two calls. *)
Definition sched_step (ids : Z * Z) (t : Tid) (c : Config) : option Config :=
  match t with
  | ThreadA =>
      match thread_step (fst ids) (pc_a c) (shared c) with
      | Some (pc', w') => Some (mkConfig pc' (pc_b c) w')
      | None => None
      end
  | ThreadB =>
      match thread_step (snd ids) (pc_b c) (shared c) with
      | Some (pc', w') => Some (mkConfig (pc_a c) pc' w')
      | None => None
      end
  end.

Fixpoint sched_run (ids : Z * Z) (s : list Tid) (c : Config) : option Config :=
  match s with
  | [] => Some c
  | t :: s' =>
      match sched_step ids t c with
      | Some c' => sched_run ids s' c'
      | None => None
      end
  end.

(** ** What the queries read *)

(** Everything the queries without an argument return, in one record. *)
Record Snapshot : Type := mkSnapshot {
  snap_has_target : bool;
  snap_num_targets : Z;
  snap_tag_ids : list Z;
  snap_primary : option TagResult;
  snap_all : option (list TagResult);
  snap_pose : RobotPose;
  snap_offset : OffsetPoint;
  snap_status : SystemStatus;
  snap_connected : bool
}.

Definition snapshot (w : World) : Snapshot :=
  {| snap_has_target := HasTarget w;
     snap_num_targets := GetNumTargets w;
     snap_tag_ids := GetTagIds w;
     snap_primary := eval GetPrimaryTarget w;
     snap_all := eval GetAllTargets w;
     snap_pose := GetRobotPose w;
     snap_offset := GetOffsetPoint w;
     snap_status := GetStatus w;
     snap_connected := IsConnected w |}.

(** What every query returns when nothing is read. *)
Definition snapshot_of_defaults (connected : bool) : Snapshot :=
  {| snap_has_target := false;
     snap_num_targets := 0;
     snap_tag_ids := [];
     snap_primary := Some TagResult.default;
     snap_all := Some [];
     snap_pose := RobotPose.default;
     snap_offset := OffsetPoint.default;
     snap_status := SystemStatus.mk "unknown" 0%float 0%float 0 connected;
     snap_connected := connected |}.

(** The calls that ask and do not tell. *)
Definition is_query (c : Call) : bool :=
  match c with
  | CallHasTarget | CallGetNumTargets | CallGetTagIds | CallGetPrimaryTarget
  | CallGetTarget _ | CallGetAllTargets | CallGetRobotPose
  | CallGetOffsetPoint | CallGetStatus | CallIsConnected => true
  | _ => false
  end.

(** The topics [Init] subscribes to under a table, in the order of the
    source, and the topics [GetTagSubs] subscribes to for one id. *)
Definition root_topics (tbl : string) : list string :=
  [ GetTopic tbl "hasTarget"; GetTopic tbl "numTargets";
    GetTopic tbl "primaryTagId"; GetTopic tbl "status"; GetTopic tbl "fps";
    GetTopic tbl "latencyMs"; GetTopic tbl "robotPose";
    GetTopic tbl "tagIds";
    GetTopic (GetSubTable tbl "offsetPoint") "valid";
    GetTopic (GetSubTable tbl "offsetPoint") "x";
    GetTopic (GetSubTable tbl "offsetPoint") "y";
    GetTopic (GetSubTable tbl "offsetPoint") "z";
    GetTopic (GetSubTable tbl "offsetPoint") "directDistance";
    GetTopic (GetSubTable tbl "offsetPoint") "tx";
    GetTopic (GetSubTable tbl "offsetPoint") "ty";
    GetTopic (GetSubTable tbl "offsetPoint") "tag_id" ].

Definition tag_fields : list string :=
  ["tx"; "ty"; "x"; "y"; "z"; "distance"; "yaw"; "pitch"; "roll"].

Definition tag_topics (tbl : string) (id : Z) : list string :=
  map (GetTopic (GetSubTable tbl ("targets/" +:+ to_string id))) tag_fields.

(** The topics the three setters publish to. *)
Definition input_topics (tbl : string) : list string :=
  [ GetTopic (GetSubTable tbl "input") "turretAngle";
    GetTopic (GetSubTable tbl "input") "turretEnabled";
    GetTopic (GetSubTable tbl "input") "matchMode" ].

(** A record with one of its nine numbers replaced, by topic name. *)
Definition set_field (f : string) (d : double) (t : TagResult) : TagResult :=
  match f with
  | "tx" => TagResult.mk (TagResult.id t) d (TagResult.ty t) (TagResult.x t)
              (TagResult.y t) (TagResult.z t) (TagResult.distance t)
              (TagResult.yaw t) (TagResult.pitch t) (TagResult.roll t)
  | "ty" => TagResult.mk (TagResult.id t) (TagResult.tx t) d (TagResult.x t)
              (TagResult.y t) (TagResult.z t) (TagResult.distance t)
              (TagResult.yaw t) (TagResult.pitch t) (TagResult.roll t)
  | "x" => TagResult.mk (TagResult.id t) (TagResult.tx t) (TagResult.ty t) d
             (TagResult.y t) (TagResult.z t) (TagResult.distance t)
             (TagResult.yaw t) (TagResult.pitch t) (TagResult.roll t)
  | "y" => TagResult.mk (TagResult.id t) (TagResult.tx t) (TagResult.ty t)
             (TagResult.x t) d (TagResult.z t) (TagResult.distance t)
             (TagResult.yaw t) (TagResult.pitch t) (TagResult.roll t)
  | "z" => TagResult.mk (TagResult.id t) (TagResult.tx t) (TagResult.ty t)
             (TagResult.x t) (TagResult.y t) d (TagResult.distance t)
             (TagResult.yaw t) (TagResult.pitch t) (TagResult.roll t)
  | "distance" =>
      TagResult.mk (TagResult.id t) (TagResult.tx t) (TagResult.ty t)
        (TagResult.x t) (TagResult.y t) (TagResult.z t) d
        (TagResult.yaw t) (TagResult.pitch t) (TagResult.roll t)
  | "yaw" => TagResult.mk (TagResult.id t) (TagResult.tx t) (TagResult.ty t)
               (TagResult.x t) (TagResult.y t) (TagResult.z t)
               (TagResult.distance t) d (TagResult.pitch t) (TagResult.roll t)
  | "pitch" =>
      TagResult.mk (TagResult.id t) (TagResult.tx t) (TagResult.ty t)
        (TagResult.x t) (TagResult.y t) (TagResult.z t)
        (TagResult.distance t) (TagResult.yaw t) d (TagResult.roll t)
  | "roll" =>
      TagResult.mk (TagResult.id t) (TagResult.tx t) (TagResult.ty t)
        (TagResult.x t) (TagResult.y t) (TagResult.z t)
        (TagResult.distance t) (TagResult.yaw t) (TagResult.pitch t) d
  | _ => t
  end.

(** A string holds the path separator. *)
Fixpoint has_slash (s : string) : bool :=
  match s with
  | EmptyString => false
  | String c s' => Ascii.eqb c "/"%char || has_slash s'
  end.

(** ** What the topics hold *)

(** The value last received on a topic, read as a double, an integer or a
    string; the given default when nothing was received or when the value
    is of another type. *)
Definition last_double (n : NetworkTableInstance) (topic : string) : double :=
  match inst_values n !! topic with
  | Some (VDouble d) => d
  | _ => 0%float
  end.

Definition last_integer (n : NetworkTableInstance) (topic : string) (d : Z)
  : Z :=
  match inst_values n !! topic with
  | Some (VInteger v) => v
  | _ => d
  end.

Definition last_string (n : NetworkTableInstance) (topic : string)
    (d : string) : string :=
  match inst_values n !! topic with
  | Some (VString v) => v
  | _ => d
  end.

(** The tag record as the nine topics under [targets/<id>] of a table hold
    it: the id asked for, and for each number the last double received on
    the topic of that name, 0.0 when there is none. *)
Definition tag_on_topics (tbl : string) (id : Z) (n : NetworkTableInstance)
  : TagResult :=
  {| TagResult.id := id;
     TagResult.tx :=
       last_double n (tbl +:+ "/targets/" +:+ to_string id +:+ "/tx");
     TagResult.ty :=
       last_double n (tbl +:+ "/targets/" +:+ to_string id +:+ "/ty");
     TagResult.x :=
       last_double n (tbl +:+ "/targets/" +:+ to_string id +:+ "/x");
     TagResult.y :=
       last_double n (tbl +:+ "/targets/" +:+ to_string id +:+ "/y");
     TagResult.z :=
       last_double n (tbl +:+ "/targets/" +:+ to_string id +:+ "/z");
     TagResult.distance :=
       last_double n (tbl +:+ "/targets/" +:+ to_string id +:+ "/distance");
     TagResult.yaw :=
       last_double n (tbl +:+ "/targets/" +:+ to_string id +:+ "/yaw");
     TagResult.pitch :=
       last_double n (tbl +:+ "/targets/" +:+ to_string id +:+ "/pitch");
     TagResult.roll :=
       last_double n (tbl +:+ "/targets/" +:+ to_string id +:+ "/roll") |}.

(** * Properties *)

(** ** Narrowing *)

Lemma static_cast_int_range v : INT_MIN ≤ static_cast_int v ≤ INT_MAX.
Proof.
  unfold static_cast_int, INT_MIN, INT_MAX.
  pose proof (Z.mod_pos_bound (v + 2 ^ 31) (2 ^ 32)). lia.
Qed.

Lemma static_cast_int_fits v :
  INT_MIN ≤ v ≤ INT_MAX → static_cast_int v = v.
Proof.
  unfold static_cast_int, INT_MIN, INT_MAX. intros Hv.
  rewrite Z.mod_small; lia.
Qed.

Lemma static_cast_int_all_fit (raw : list Z) :
  Forall (λ v, INT_MIN ≤ v ≤ INT_MAX) raw → map static_cast_int raw = raw.
Proof.
  induction 1 as [|v raw Hv _ IH]; simpl; [done|].
  by rewrite static_cast_int_fits, IH.
Qed.

(** ** The two loops are maps *)

Lemma push_back_loop {A B} (f : A → B) (l : list A) (acc : list B) :
  foldl (λ ids v, ids ++ [f v]) acc l = acc ++ map f l.
Proof.
  revert acc. induction l as [|a l IH]; intros acc; simpl.
  - by rewrite app_nil_r.
  - rewrite IH. by rewrite <- app_assoc.
Qed.

Lemma GetTagIds_map w :
  GetTagIds w = map static_cast_int (Get (sub_tag_ids (impl w)) (nt w)).
Proof. unfold GetTagIds. by rewrite push_back_loop. Qed.

Lemma std_find_None l v : std_find l v = None ↔ v ∉ l.
Proof.
  induction l as [|a l IH]; simpl.
  - split; [intros _; apply not_elem_of_nil | done].
  - destruct (decide (a = v)) as [->|Hne].
    + split; [done | intros H; destruct H; left].
    + rewrite not_elem_of_cons, <- IH.
      destruct (std_find l v); simpl; split; try done; intros [? ?]; done.
Qed.

Lemma std_find_Some l v : is_Some (std_find l v) ↔ v ∈ l.
Proof.
  rewrite <- not_eq_None_Some, std_find_None.
  destruct (decide (v ∈ l)); naive_solver.
Qed.

(** ** [GetTagSubs] and [ReadTag] *)

Lemma GetTagSubs_cached id ts w :
  tag_subs (impl w) !! id = Some ts → GetTagSubs id w = Some (ts, w).
Proof. intros H. unfold GetTagSubs. by rewrite H. Qed.

Lemma ReadTag_cached id ts w :
  tag_subs (impl w) !! id = Some ts →
  ReadTag id w = Some (read_subs id ts (nt w), w).
Proof.
  intros H. unfold ReadTag, mbind, M_bind. by rewrite (GetTagSubs_cached _ _ _ H).
Qed.

Lemma ReadTag_miss id tbl w :
  tag_subs (impl w) !! id = None → table (impl w) = Some tbl →
  let ts := NewTagSubs (GetSubTable tbl ("targets/" +:+ to_string id)) in
  ReadTag id w =
    Some (read_subs id ts (nt w),
          mkWorld (set_tag_subs (<[id := ts]> (tag_subs (impl w))) (impl w))
            (nt w) (invoked w)).
Proof.
  intros Hc Ht. unfold ReadTag, mbind, M_bind, GetTagSubs. by rewrite Hc, Ht.
Qed.

Lemma ReadTag_null id w :
  tag_subs (impl w) !! id = None → table (impl w) = None →
  ReadTag id w = None.
Proof.
  intros Hc Ht. unfold ReadTag, mbind, M_bind, GetTagSubs. by rewrite Hc, Ht.
Qed.

(** [ReadTag] is [GetTagSubs] followed by nine reads; the record carries the
    id it was asked for. *)
Lemma ReadTag_inv id w t w' :
  ReadTag id w = Some (t, w') →
  ∃ ts, GetTagSubs id w = Some (ts, w') ∧ t = read_subs id ts (nt w) ∧
        nt w' = nt w ∧ invoked w' = invoked w ∧
        table (impl w') = table (impl w) ∧
        tag_subs (impl w') !! id = Some ts ∧
        (∀ id', id' ≠ id →
           tag_subs (impl w') !! id' = tag_subs (impl w) !! id').
Proof.
  unfold ReadTag, mbind, M_bind, GetTagSubs.
  destruct (tag_subs (impl w) !! id) as [ts|] eqn:Hc.
  - intros [= <- <-]. exists ts. by rewrite Hc.
  - destruct (table (impl w)) as [tbl|] eqn:Ht; [|done].
    intros [= <- <-]. eexists.
    cbn [impl tag_subs set_tag_subs nt invoked table].
    split_and!; try done; [by rewrite lookup_insert_eq|].
    intros id' Hne. by rewrite lookup_insert_ne.
Qed.

Lemma ReadTag_id id w t w' :
  ReadTag id w = Some (t, w') → TagResult.id t = id.
Proof. intros (ts & _ & -> & _)%ReadTag_inv. done. Qed.

(** A read leaves what any later read returns unchanged. *)
Lemma ReadTag_stable id w t w' id' :
  ReadTag id w = Some (t, w') →
  eval (ReadTag id') w' = eval (ReadTag id') w.
Proof.
  intros (ts & Hg & -> & Hn & _ & Ht & Hid & Hother)%ReadTag_inv.
  unfold eval.
  destruct (decide (id' = id)) as [->|Hne].
  - rewrite (ReadTag_cached _ _ _ Hid). simpl.
    unfold ReadTag, mbind, M_bind. rewrite Hg. simpl. by rewrite Hn.
  - specialize (Hother _ Hne).
    destruct (tag_subs (impl w) !! id') as [ts'|] eqn:Hc'.
    + rewrite (ReadTag_cached _ _ _ Hother), (ReadTag_cached _ _ _ Hc').
      simpl. by rewrite Hn.
    + destruct (table (impl w)) as [tbl|] eqn:Htbl.
      * rewrite (ReadTag_miss _ tbl _ Hother) by congruence.
        rewrite (ReadTag_miss _ tbl _ Hc' Htbl). simpl. by rewrite Hn.
      * rewrite (ReadTag_null _ _ Hother) by congruence.
        by rewrite (ReadTag_null _ _ Hc' Htbl).
Qed.

(** ** What the queries may change: the per-tag cache, and nothing else *)

Definition only_cache (w w' : World) : Prop :=
  w' = mkWorld (set_tag_subs (tag_subs (impl w')) (impl w)) (nt w) (invoked w).

Lemma only_cache_refl w : only_cache w w.
Proof. unfold only_cache. by destruct w as [[] ? ?]. Qed.

Lemma only_cache_trans w1 w2 w3 :
  only_cache w1 w2 → only_cache w2 w3 → only_cache w1 w3.
Proof.
  unfold only_cache. intros H12 H23. rewrite H23 at 1. rewrite H12 at 1 2 3.
  done.
Qed.

Lemma ReadTag_only_cache id w t w' :
  ReadTag id w = Some (t, w') → only_cache w w'.
Proof.
  unfold ReadTag, mbind, M_bind, GetTagSubs.
  destruct (tag_subs (impl w) !! id) as [ts|].
  - intros [= <- <-]. apply only_cache_refl.
  - destruct (table (impl w)); [|done]. by intros [= <- <-].
Qed.

Lemma GetAllTargets_loop_only_cache ids acc w rs w' :
  GetAllTargets_loop ids acc w = Some (rs, w') → only_cache w w'.
Proof.
  revert acc w. induction ids as [|id ids IH]; intros acc w; simpl.
  - intros [= <- <-]. apply only_cache_refl.
  - unfold mbind, M_bind.
    destruct (ReadTag id w) as [[t w1]|] eqn:Hr; [|done].
    intros Hl. eapply only_cache_trans; [by eapply ReadTag_only_cache|].
    by eapply IH.
Qed.

Lemma GetPrimaryTarget_only_cache w t w' :
  GetPrimaryTarget w = Some (t, w') → only_cache w w'.
Proof.
  unfold GetPrimaryTarget. case_decide.
  - intros [= <- <-]. apply only_cache_refl.
  - apply ReadTag_only_cache.
Qed.

Lemma GetTarget_only_cache id w o w' :
  GetTarget id w = Some (o, w') → only_cache w w'.
Proof.
  unfold GetTarget. destruct (std_find _ _).
  - unfold fmap, M_fmap.
    destruct (ReadTag id w) as [[t w1]|] eqn:Hr; [|done].
    intros [= <- <-]. by eapply ReadTag_only_cache.
  - intros [= <- <-]. apply only_cache_refl.
Qed.

(** ** The all-targets loop, element by element *)

Lemma GetAllTargets_loop_spec ids acc w rs w' :
  GetAllTargets_loop ids acc w = Some (rs, w') →
  ∃ ts, rs = acc ++ ts ∧
        Forall2 (λ id t, eval (ReadTag id) w = Some t) ids ts.
Proof.
  revert acc w. induction ids as [|id ids IH]; intros acc w; simpl.
  - intros [= <- <-]. exists []. by rewrite app_nil_r.
  - unfold mbind, M_bind.
    destruct (ReadTag id w) as [[t w1]|] eqn:Hr; [|done].
    intros (ts & -> & Hall)%IH. exists (t :: ts). split.
    + by rewrite <- app_assoc.
    + constructor.
      * unfold eval. by rewrite Hr.
      * eapply Forall2_impl; [exact Hall|]. intros id' t' Hid'. simpl in *.
        by rewrite <- (ReadTag_stable _ _ _ _ id' Hr).
Qed.

Lemma GetAllTargets_loop_total ids acc w :
  (∀ id, id ∈ ids → is_Some (eval (ReadTag id) w)) →
  is_Some (GetAllTargets_loop ids acc w).
Proof.
  revert acc w. induction ids as [|id ids IH]; intros acc w Hok; simpl.
  - by eexists.
  - unfold mbind, M_bind.
    destruct (Hok id) as [t Ht]; [by left|].
    unfold eval in Ht.
    destruct (ReadTag id w) as [[t' w1]|] eqn:Hr; [|done].
    apply IH. intros id' Hin.
    rewrite (ReadTag_stable _ _ _ _ id' Hr). apply Hok. by right.
Qed.

(** ** The invariant of reachable worlds *)

Lemma initialized_table w :
  initialized w → table (impl w) = Some (GetTable (table_name (impl w))).
Proof. unfold initialized. intros H. by rewrite <- H at 1. Qed.

Lemma initialized_sub_tag_ids w :
  initialized w →
  sub_tag_ids (impl w) =
    Subscribe (GetTopic (GetTable (table_name (impl w))) "tagIds") [].
Proof. unfold initialized. intros H. by rewrite <- H at 1. Qed.

Lemma initialized_sub_primary_id w :
  initialized w →
  sub_primary_id (impl w) =
    Subscribe (GetTopic (GetTable (table_name (impl w))) "primaryTagId") (-1).
Proof. unfold initialized. intros H. by rewrite <- H at 1. Qed.

Lemma initialized_sub_robot_pose w :
  initialized w →
  sub_robot_pose (impl w) =
    Subscribe (GetTopic (GetTable (table_name (impl w))) "robotPose") [].
Proof. unfold initialized. intros H. by rewrite <- H at 1. Qed.

Lemma pristine_fields w :
  pristine w →
  table (impl w) = None ∧ tag_subs (impl w) = ∅ ∧
  sub_tag_ids (impl w) = unbound ∧ sub_primary_id (impl w) = unbound.
Proof.
  unfold pristine. intros H. split_and!.
  - by apply (f_equal table) in H.
  - by apply (f_equal tag_subs) in H.
  - by apply (f_equal sub_tag_ids) in H.
  - by apply (f_equal sub_primary_id) in H.
Qed.

(** Before [Init] the id list is empty and the primary id is the sentinel,
    so no query reaches [GetTagSubs]. *)
Lemma pristine_GetTagIds w : pristine w → GetTagIds w = [].
Proof.
  intros (_ & _ & H & _)%pristine_fields. rewrite GetTagIds_map.
  unfold Get, GetOr. by rewrite H.
Qed.

Lemma pristine_primary w :
  pristine w → GetOr (sub_primary_id (impl w)) (nt w) (-1) = -1.
Proof.
  intros (_ & _ & _ & H)%pristine_fields. unfold GetOr. by rewrite H.
Qed.

Lemma wf_XNav name n : wf (XNav name n).
Proof.
  split; [|by left]. intros id ts. unfold XNav. cbn [impl tag_subs].
  by rewrite lookup_empty.
Qed.

Lemma initialized_Init s w : initialized (Init s w).
Proof. done. Qed.

Lemma wf_Init s w : wf w → wf (Init s w).
Proof.
  intros [Hc Hs]. split; [|right; apply initialized_Init].
  intros id ts Hl. cbn [Init Impl_Init impl tag_subs table] in *.
  destruct Hs as [Hp|Hi].
  - apply pristine_fields in Hp as (_ & He & _). rewrite He in Hl.
    by rewrite lookup_empty in Hl.
  - destruct (Hc id ts Hl) as (tbl & Ht & ->).
    rewrite (initialized_table _ Hi) in Ht. injection Ht as <-. by eexists.
Qed.

Lemma wf_same_impl w w' : impl w' = impl w → wf w → wf w'.
Proof.
  destruct w as [i n l], w' as [i' n' l']. cbn [impl]. intros ->.
  unfold wf, cache_ok, pristine, initialized. done.
Qed.

Lemma wf_OnNewTargets cb w : wf w → wf (OnNewTargets cb w).
Proof.
  intros [Hc Hs]. split; [exact Hc|].
  destruct Hs as [Hp|Hi]; [left|right].
  - unfold pristine in *. destruct w as [[] ? ?].
    cbn [OnNewTargets impl nt table_name set_on_new_targets] in *. exact Hp.
  - unfold initialized in *. destruct w as [[] ? ?].
    cbn in *. injection Hi; intros; subst; reflexivity.
Qed.

Lemma wf_ReadTag id w t w' : wf w → ReadTag id w = Some (t, w') → wf w'.
Proof.
  intros [Hc Hs] Hr.
  destruct (tag_subs (impl w) !! id) as [ts|] eqn:Hl.
  { rewrite (ReadTag_cached _ _ _ Hl) in Hr. by injection Hr as <- <-. }
  destruct (table (impl w)) as [tbl|] eqn:Ht.
  2:{ by rewrite (ReadTag_null _ _ Hl Ht) in Hr. }
  rewrite (ReadTag_miss _ _ _ Hl Ht) in Hr. injection Hr as <- <-.
  destruct Hs as [Hp|Hi].
  { apply pristine_fields in Hp as (Hn & _). congruence. }
  split.
  - intros id' ts'. cbn [impl tag_subs set_tag_subs table].
    destruct (decide (id' = id)) as [->|Hne].
    + rewrite lookup_insert_eq. intros [= <-]. by exists tbl.
    + rewrite lookup_insert_ne by done. apply Hc.
  - right. clear - Hi. unfold initialized in *. destruct w as [[] ? ?].
    cbn in *. injection Hi; intros; subst; reflexivity.
Qed.

Lemma wf_GetAllTargets_loop ids acc w rs w' :
  wf w → GetAllTargets_loop ids acc w = Some (rs, w') → wf w'.
Proof.
  revert acc w. induction ids as [|id ids IH]; intros acc w Hwf; simpl.
  - by intros [= <- <-].
  - unfold mbind, M_bind.
    destruct (ReadTag id w) as [[t w1]|] eqn:Hr; [|done].
    apply IH. by eapply wf_ReadTag.
Qed.

Lemma wf_call c w w' : wf w → call c w = Some w' → wf w'.
Proof.
  intros Hwf. destruct c; simpl; unfold exec;
    try (intros [= <-]; first
           [ exact Hwf | by apply wf_Init | by apply wf_OnNewTargets
           | by eapply wf_same_impl; [|exact Hwf] ]).
  - unfold GetPrimaryTarget. case_decide.
    + by intros [= <-].
    + destruct (ReadTag _ w) as [[t w1]|] eqn:Hr; [|done].
      intros [= <-]. by eapply wf_ReadTag.
  - unfold GetTarget. destruct (std_find _ _).
    + unfold fmap at 2, M_fmap.
      destruct (ReadTag _ w) as [[t w1]|] eqn:Hr; [|done].
      intros [= <-]. by eapply wf_ReadTag.
    + by intros [= <-].
  - unfold GetAllTargets.
    destruct (GetAllTargets_loop _ _ w) as [[rs w1]|] eqn:Hr; [|done].
    intros [= <-]. by eapply wf_GetAllTargets_loop.
Qed.

Lemma wf_step e w w' : wf w → step e w = Some w' → wf w'.
Proof.
  intros Hwf. destruct e; simpl.
  - by apply wf_call.
  - intros [= <-]. by eapply wf_same_impl; [|exact Hwf].
  - intros [= <-]. by eapply wf_same_impl; [|exact Hwf].
Qed.

Lemma wf_run es w w' : wf w → run es w = Some w' → wf w'.
Proof.
  revert w. induction es as [|e es IH]; intros w Hwf; simpl.
  - by intros [= <-].
  - destruct (step e w) as [w1|] eqn:Hs; [|done].
    apply IH. by eapply wf_step.
Qed.

Lemma reachable_wf w : reachable w → wf w.
Proof. intros (name & n & es & Hrun). eapply wf_run; [apply wf_XNav | done]. Qed.

(** ** What a read returns in a reachable world *)

Lemma append_cons c s t : String c s +:+ t = String c (s +:+ t).
Proof. reflexivity. Qed.

Lemma append_assoc s t u : (s +:+ t) +:+ u = s +:+ t +:+ u.
Proof.
  induction s as [|c s IH]; [reflexivity|].
  by rewrite !append_cons, IH.
Qed.

Lemma tag_topic_path tbl id f :
  GetTopic (GetSubTable tbl ("targets/" +:+ to_string id)) f
  = tbl +:+ "/targets/" +:+ to_string id +:+ "/" +:+ f.
Proof. unfold GetTopic, GetSubTable. by rewrite !append_assoc. Qed.

Lemma Get_last_double topic n :
  Get (Subscribe topic 0%float) n = last_double n topic.
Proof.
  unfold Get, GetOr, Subscribe, last_double. cbn [sub_topic sub_default].
  by destruct (inst_values n !! topic) as [[]|].
Qed.

(** What [ReadTag] reads through the subscribers [GetTagSubs] builds is what
    the nine topics of the tag hold. *)
Lemma read_subs_on_topics tbl id n :
  read_subs id (NewTagSubs (GetSubTable tbl ("targets/" +:+ to_string id))) n
  = tag_on_topics tbl id n.
Proof.
  unfold read_subs, NewTagSubs, tag_on_topics.
  cbn [TagSubs.tx TagSubs.ty TagSubs.x TagSubs.y TagSubs.z TagSubs.distance
       TagSubs.yaw TagSubs.pitch TagSubs.roll].
  rewrite !Get_last_double, !tag_topic_path. reflexivity.
Qed.

(** With the table bound, [ReadTag] returns the record of the nine topics
    under [targets/<id>], whether the subscriber set was cached or not. *)
Lemma ReadTag_eval w id tbl :
  cache_ok w → table (impl w) = Some tbl →
  eval (ReadTag id) w =
    Some (read_subs id
            (NewTagSubs (GetSubTable tbl ("targets/" +:+ to_string id)))
            (nt w)).
Proof.
  intros Hc Ht. unfold eval.
  destruct (tag_subs (impl w) !! id) as [ts|] eqn:Hl.
  - rewrite (ReadTag_cached _ _ _ Hl). simpl.
    destruct (Hc _ _ Hl) as (tbl' & Ht' & ->). congruence.
  - by rewrite (ReadTag_miss _ _ _ Hl Ht).
Qed.

Lemma wf_ids_table w id :
  wf w → id ∈ GetTagIds w → ∃ tbl, table (impl w) = Some tbl.
Proof.
  intros [_ [Hp|Hi]] Hin.
  - rewrite (pristine_GetTagIds _ Hp) in Hin. by apply elem_of_nil in Hin.
  - eexists. by apply initialized_table.
Qed.

Lemma wf_primary_table w :
  wf w → 0 ≤ static_cast_int (GetOr (sub_primary_id (impl w)) (nt w) (-1)) →
  ∃ tbl, table (impl w) = Some tbl.
Proof.
  intros [_ [Hp|Hi]] Hid.
  - rewrite (pristine_primary _ Hp) in Hid. by vm_compute in Hid.
  - eexists. by apply initialized_table.
Qed.

Lemma eval_fmap {A B} (f : A → B) (m : M A) w :
  eval (f <$> m) w = f <$> eval m w.
Proof.
  unfold eval. unfold fmap at 2, M_fmap. by destruct (m w) as [[a w']|].
Qed.

Lemma GetTarget_absent w id :
  id ∉ GetTagIds w → GetTarget id w = Some (None, w).
Proof. intros H%std_find_None. unfold GetTarget. by rewrite H. Qed.

Lemma GetTarget_present w id :
  id ∈ GetTagIds w → GetTarget id w = (Some <$> ReadTag id) w.
Proof.
  intros [n H]%std_find_Some. unfold GetTarget. by rewrite H.
Qed.

Lemma wf_ids_initialized w id : wf w → id ∈ GetTagIds w → initialized w.
Proof.
  intros [_ [Hp|Hi]] Hin; [|done].
  rewrite (pristine_GetTagIds _ Hp) in Hin. by apply elem_of_nil in Hin.
Qed.

Lemma wf_primary_initialized w :
  wf w → 0 ≤ static_cast_int (GetOr (sub_primary_id (impl w)) (nt w) (-1)) →
  initialized w.
Proof.
  intros [_ [Hp|Hi]] Hid; [|done].
  rewrite (pristine_primary _ Hp) in Hid. by vm_compute in Hid.
Qed.

(** On an initialised facade [ReadTag(id)] returns what the nine topics of
    the tag hold under the facade's table. *)
Lemma ReadTag_on_topics w id :
  wf w → initialized w →
  eval (ReadTag id) w
  = Some (tag_on_topics (GetTable (table_name (impl w))) id (nt w)).
Proof.
  intros [Hc _] Hi.
  rewrite (ReadTag_eval _ _ _ Hc (initialized_table _ Hi)).
  by rewrite read_subs_on_topics.
Qed.

(** C1, as the code has it.  In a reachable world, [GetTarget(id)] returns
    the empty optional exactly when [id] is not in the list [GetTagIds()]
    returns, which is the published [tagIds] list with every element
    narrowed to [int]; the two lists are the same whenever the published
    elements fit in an [int].  When [id] is in [GetTagIds()], the result is
    the record with that id whose nine numbers are the last doubles
    received on the topics [targets/<id>/tx], ..., [targets/<id>/roll] of
    the facade's table, 0.0 where none was received.  A subscriber set
    cached for [id] by an earlier query does not change the answer for an
    absent id: the call returns the empty optional and leaves the world as
    it was. *)
Theorem GetTarget_membership (w : World) (id : Z) :
  wf w →
  (eval (GetTarget id) w = Some None ↔ id ∉ GetTagIds w) ∧
  GetTagIds w = map static_cast_int (Get (sub_tag_ids (impl w)) (nt w)) ∧
  (id ∈ GetTagIds w →
     table (impl w) = Some (GetTable (table_name (impl w))) ∧
     eval (GetTarget id) w =
       Some (Some (tag_on_topics (GetTable (table_name (impl w))) id
                     (nt w)))) ∧
  (∀ ts, tag_subs (impl w) !! id = Some ts → id ∉ GetTagIds w →
     GetTarget id w = Some (None, w)) ∧
  (∀ raw, Get (sub_tag_ids (impl w)) (nt w) = raw →
     Forall (λ v, INT_MIN ≤ v ≤ INT_MAX) raw →
     (eval (GetTarget id) w = Some None ↔ id ∉ raw)).
Proof.
  intros Hwf.
  assert (Hpresent : id ∈ GetTagIds w →
     table (impl w) = Some (GetTable (table_name (impl w))) ∧
     eval (GetTarget id) w =
       Some (Some (tag_on_topics (GetTable (table_name (impl w))) id
                     (nt w)))).
  { intros Hin. pose proof (wf_ids_initialized _ _ Hwf Hin) as Hi.
    split; [by apply initialized_table|]. unfold eval at 1.
    rewrite (GetTarget_present _ _ Hin). fold (eval (Some <$> ReadTag id) w).
    by rewrite eval_fmap, (ReadTag_on_topics _ _ Hwf Hi). }
  assert (Hiff : eval (GetTarget id) w = Some None ↔ id ∉ GetTagIds w).
  { split.
    - intros He Hin. destruct (Hpresent Hin) as (_ & He'). congruence.
    - intros Hout. unfold eval. by rewrite (GetTarget_absent _ _ Hout). }
  split_and!; [exact Hiff | apply GetTagIds_map | exact Hpresent | |].
  - intros ts _ Hout. by apply GetTarget_absent.
  - intros raw Hraw Hfit. rewrite Hiff, GetTagIds_map, Hraw.
    by rewrite (static_cast_int_all_fit _ Hfit).
Qed.

(** ** Example worlds *)

Lemma after_reachable es w : run es fresh = Some w → reachable (after es).
Proof. intros H. exists "XNav", no_traffic, es. unfold after. by rewrite H. Qed.

Lemma started_wf : wf started.
Proof. apply wf_Init, wf_XNav. Qed.

Lemma one_tag_reachable : reachable one_tag.
Proof. eapply after_reachable. vm_compute. reflexivity. Qed.

Lemma stale_reachable : reachable stale.
Proof. eapply after_reachable. vm_compute. reflexivity. Qed.

Lemma negative_id_reachable : reachable negative_id.
Proof. eapply after_reachable. vm_compute. reflexivity. Qed.

Lemma odd_telemetry_reachable : reachable odd_telemetry.
Proof. eapply after_reachable. vm_compute. reflexivity. Qed.

Lemma count_mismatch_reachable : reachable count_mismatch.
Proof. eapply after_reachable. vm_compute. reflexivity. Qed.

Example one_tag_ids : GetTagIds one_tag = [7].
Proof. vm_compute. reflexivity. Qed.

Example one_tag_primary : eval GetPrimaryTarget one_tag = Some tag7.
Proof. vm_compute. reflexivity. Qed.

Example one_tag_miss : eval (GetTarget 3) one_tag = Some None.
Proof. vm_compute. reflexivity. Qed.

Example stale_cached : is_Some (tag_subs (impl stale) !! 7).
Proof. vm_compute. by eexists. Qed.

Example stale_ids : GetTagIds stale = [].
Proof. vm_compute. reflexivity. Qed.

(** Tag 7 in view: the lookup returns its record.  Tag 7 cached and gone
    from the id list: the lookup returns the empty optional. *)
Lemma GetTarget_membership_witness :
  wf one_tag ∧ eval (GetTarget 7) one_tag = Some (Some tag7) ∧
  wf stale ∧ is_Some (tag_subs (impl stale) !! 7) ∧
  GetTarget 7 stale = Some (None, stale).
Proof.
  pose proof (reachable_wf _ one_tag_reachable) as Hwf1.
  pose proof (reachable_wf _ stale_reachable) as Hwf.
  split; [exact Hwf1|]. split.
  { destruct (GetTarget_membership one_tag 7 Hwf1) as (_ & _ & Hin & _).
    destruct Hin as [_ Hin].
    - rewrite one_tag_ids. apply list_elem_of_singleton. reflexivity.
    - etrans; [exact Hin|]. vm_compute. reflexivity. }
  split; [exact Hwf|]. split; [exact stale_cached|].
  destruct (GetTarget_membership stale 7 Hwf) as (_ & _ & _ & Hcached & _).
  destruct stale_cached as [ts Hts].
  apply (Hcached ts Hts). rewrite stale_ids. apply not_elem_of_nil.
Defined.

Lemma id_wraps_reachable : reachable id_wraps.
Proof. eapply after_reachable. vm_compute. reflexivity. Qed.

(** C1 as stated fails: 7 is not an element of the published list, whose
    one element is 2^32 + 7, and [GetTarget(7)] returns the record of
    tag 7. *)
Lemma published_id_wraps :
  reachable id_wraps ∧
  inst_values (nt id_wraps) !! "/XNav/tagIds"
  = Some (VIntegerArray [4294967303]) ∧
  Get (sub_tag_ids (impl id_wraps)) (nt id_wraps) = [4294967303] ∧
  (7 ∉ Get (sub_tag_ids (impl id_wraps)) (nt id_wraps)) ∧
  GetTagIds id_wraps = [7] ∧
  eval (GetTarget 7) id_wraps = Some (Some tag7).
Proof.
  assert (Hraw : Get (sub_tag_ids (impl id_wraps)) (nt id_wraps)
                 = [4294967303]) by (vm_compute; reflexivity).
  split; [exact id_wraps_reachable|].
  split_and!; [by vm_compute | exact Hraw | | by vm_compute | by vm_compute].
  rewrite Hraw. intros Hin%list_elem_of_singleton. discriminate Hin.
Qed.

(** ** The robot pose *)

Lemma GetRobotPose_cases w :
  let data := GetOr (sub_robot_pose (impl w)) (nt w) [] in
  match data with
  | x :: y :: z :: r :: p :: yw :: _ =>
      GetRobotPose w = RobotPose.mk x y z r p yw true
  | _ => GetRobotPose w = RobotPose.default
  end.
Proof.
  unfold GetRobotPose.
  destruct (GetOr _ _ _) as [|x [|y [|z [|r [|p [|yw rest]]]]]];
    cbn [length]; case_decide; try done; lia.
Qed.

Lemma robot_pose_received w data :
  initialized w →
  GetOr (sub_robot_pose (impl w))
    (nt (receive (GetTopic (GetTable (table_name (impl w))) "robotPose")
           (VDoubleArray data) w)) [] = data.
Proof.
  intros Hi. rewrite (initialized_sub_robot_pose _ Hi).
  unfold GetOr, receive, Subscribe.
  cbn [sub_topic nt set_values inst_values]. by rewrite lookup_insert_eq.
Qed.

(** C3.  After [Init], for every sequence [data] received on [robotPose]:
    the pose is valid exactly when [data] has at least six elements; then
    its six fields are the first six elements, whatever follows them; a
    shorter sequence gives the default pose, not valid and all zero. *)
Theorem GetRobotPose_valid_iff (w : World) (data : list double) :
  initialized w →
  (RobotPose.valid
     (GetRobotPose
        (receive (GetTopic (GetTable (table_name (impl w))) "robotPose")
           (VDoubleArray data) w)) = true
   ↔ (6 ≤ length data)%nat) ∧
  (∀ x y z r p yw rest, data = x :: y :: z :: r :: p :: yw :: rest →
     GetRobotPose
       (receive (GetTopic (GetTable (table_name (impl w))) "robotPose")
          (VDoubleArray data) w)
     = RobotPose.mk x y z r p yw true) ∧
  ((6 ≤ length data)%nat →
     ∃ x y z r p yw rest, data = x :: y :: z :: r :: p :: yw :: rest) ∧
  ((length data < 6)%nat →
     GetRobotPose
       (receive (GetTopic (GetTable (table_name (impl w))) "robotPose")
          (VDoubleArray data) w)
     = RobotPose.mk 0%float 0%float 0%float 0%float 0%float 0%float false).
Proof.
  intros Hi.
  set (w' := receive _ _ w).
  pose proof (GetRobotPose_cases w') as Hcases.
  assert (Hd : GetOr (sub_robot_pose (impl w')) (nt w') [] = data)
    by apply (robot_pose_received _ _ Hi).
  cbv zeta in Hcases. rewrite Hd in Hcases. clear Hd.
  destruct data as [|x [|y [|z [|r [|p [|yw rest]]]]]];
    rewrite Hcases; cbn [length RobotPose.valid RobotPose.default].
  1-6: split_and!;
         [ split; [done | lia] | intros; simplify_eq | intros; lia | done ].
  split_and!.
  - split; [lia | done].
  - intros. by simplify_eq.
  - intros _. by repeat eexists.
  - lia.
Qed.

(** Seven elements received: the pose is valid and the seventh is ignored. *)
Lemma GetRobotPose_valid_iff_witness :
  initialized started ∧
  GetRobotPose
    (receive "/XNav/robotPose"
       (VDoubleArray [1%float; 2%float; 0%float; 0%float; 0%float; 90%float;
                      7.5%float])
       started)
  = RobotPose.mk 1%float 2%float 0%float 0%float 0%float 90%float true.
Proof.
  split; [reflexivity|].
  exact (proj1 (proj2 (GetRobotPose_valid_iff started _ eq_refl))
           _ _ _ _ _ _ _ eq_refl).
Defined.

(** ** Tag assembly on the three paths *)

Lemma GetAllTargets_spec w :
  wf w →
  ∃ ts w', GetAllTargets w = Some (ts, w') ∧
    Forall2 (λ id t, eval (ReadTag id) w = Some t) (GetTagIds w) ts.
Proof.
  intros Hwf. unfold GetAllTargets.
  destruct (GetAllTargets_loop_total (GetTagIds w) [] w) as [[ts w'] Hl].
  { intros id Hin. destruct (wf_ids_table _ _ Hwf Hin) as [tbl Ht].
    rewrite (ReadTag_eval _ _ tbl); [by eexists | apply Hwf | done]. }
  exists ts, w'. split; [done|].
  by apply GetAllTargets_loop_spec in Hl as (ts' & -> & Hall).
Qed.

Lemma GetPrimaryTarget_negative w :
  static_cast_int (GetOr (sub_primary_id (impl w)) (nt w) (-1)) < 0 →
  GetPrimaryTarget w = Some (TagResult.default, w).
Proof. intros H. unfold GetPrimaryTarget. by rewrite decide_True. Qed.

Lemma GetPrimaryTarget_nonnegative w :
  0 ≤ static_cast_int (GetOr (sub_primary_id (impl w)) (nt w) (-1)) →
  GetPrimaryTarget w =
    ReadTag (static_cast_int (GetOr (sub_primary_id (impl w)) (nt w) (-1))) w.
Proof. intros H. unfold GetPrimaryTarget. rewrite decide_False; [done | lia]. Qed.

Lemma ReadTag_initialized w id t w' :
  wf w → ReadTag id w = Some (t, w') → initialized w.
Proof.
  intros [_ [Hp|Hi]] Hr; [|done].
  apply pristine_fields in Hp as (Ht & Hc & _).
  rewrite ReadTag_null in Hr; [done | | done].
  rewrite Hc. apply lookup_empty.
Qed.

Lemma GetAllTargets_on_topics w :
  wf w →
  eval GetAllTargets w
  = Some (map (λ id, tag_on_topics (GetTable (table_name (impl w))) id (nt w))
            (GetTagIds w)).
Proof.
  intros Hwf. destruct (GetAllTargets_spec _ Hwf) as (ts & w' & Hall & Hts).
  unfold eval. rewrite Hall. cbn. f_equal. clear Hall.
  destruct (proj2 Hwf) as [Hp|Hi].
  - rewrite (pristine_GetTagIds _ Hp) in *. by apply Forall2_nil_inv_l in Hts.
  - induction Hts as [|id t ids ts' Hr _ IH]; [done|]. cbn.
    rewrite (ReadTag_on_topics _ _ Hwf Hi) in Hr. injection Hr as <-.
    by rewrite IH.
Qed.

(** C4, as the code has it.  The test [id < 0] is in [GetPrimaryTarget]
    alone: a negative primary id gives the default record.  [ReadTag] has no
    such test: for every id, negative or not, its record carries the
    requested id and, for each of the nine numbers, the last double received
    on the topic of that name under [targets/<id>] of the facade's table,
    0.0 where none was received; these are the values of the subscriber set
    [GetTagSubs] returns for the id.  [GetPrimaryTarget] with a non-negative
    id, [GetTarget] with an id of the list and [GetAllTargets] for each
    element of the list return that record, so on all three paths the id
    field is the requested id. *)
Theorem tag_assembly_by_path (w : World) :
  wf w →
  (static_cast_int (GetOr (sub_primary_id (impl w)) (nt w) (-1)) < 0 →
     GetPrimaryTarget w = Some (TagResult.default, w)) ∧
  (∀ id t w', ReadTag id w = Some (t, w') →
     TagResult.id t = id ∧
     (∃ ts, GetTagSubs id w = Some (ts, w') ∧ t = read_subs id ts (nt w)) ∧
     t = tag_on_topics (GetTable (table_name (impl w))) id (nt w)) ∧
  (0 ≤ static_cast_int (GetOr (sub_primary_id (impl w)) (nt w) (-1)) →
     eval GetPrimaryTarget w
     = Some (tag_on_topics (GetTable (table_name (impl w)))
               (static_cast_int (GetOr (sub_primary_id (impl w)) (nt w) (-1)))
               (nt w))) ∧
  (∀ id, id ∈ GetTagIds w →
     eval (GetTarget id) w
     = Some (Some (tag_on_topics (GetTable (table_name (impl w))) id (nt w))))
  ∧
  eval GetAllTargets w
  = Some (map (λ id, tag_on_topics (GetTable (table_name (impl w))) id (nt w))
            (GetTagIds w)).
Proof.
  intros Hwf. split_and!.
  - apply GetPrimaryTarget_negative.
  - intros id t w' Hr. split_and!.
    + by eapply ReadTag_id.
    + apply ReadTag_inv in Hr as (ts & Hg & -> & _). by exists ts.
    + pose proof (ReadTag_initialized _ _ _ _ Hwf Hr) as Hi.
      pose proof (ReadTag_on_topics w id Hwf Hi) as He.
      unfold eval in He. rewrite Hr in He. by injection He.
  - intros Hnn. pose proof (wf_primary_initialized _ Hwf Hnn) as Hi.
    unfold eval at 1. rewrite (GetPrimaryTarget_nonnegative _ Hnn).
    by apply ReadTag_on_topics.
  - intros id Hin. pose proof (wf_ids_initialized _ _ Hwf Hin) as Hi.
    unfold eval at 1. rewrite (GetTarget_present _ _ Hin).
    fold (eval (Some <$> ReadTag id) w).
    by rewrite eval_fmap, (ReadTag_on_topics _ _ Hwf Hi).
  - by apply GetAllTargets_on_topics.
Qed.

(** With tag 7 in view, the lookup and the enumeration return the numbers
    received for tag 7. *)
Lemma tag_assembly_by_path_witness :
  wf one_tag ∧
  eval (GetTarget 7) one_tag = Some (Some tag7) ∧
  eval GetAllTargets one_tag = Some [tag7].
Proof.
  pose proof (reachable_wf _ one_tag_reachable) as Hwf.
  split; [exact Hwf|].
  destruct (tag_assembly_by_path one_tag Hwf)
    as (_ & _ & _ & Hlookup & Hall).
  split.
  - etrans; [apply Hlookup|].
    + rewrite one_tag_ids. apply list_elem_of_singleton. reflexivity.
    + vm_compute. reflexivity.
  - etrans; [exact Hall|]. vm_compute. reflexivity.
Defined.

(** C4 as stated fails: with [-5] in the id list, the lookup by id and the
    enumeration both return a record with id [-5], which is not the default
    record. *)
Lemma negative_tag_not_default :
  reachable negative_id ∧
  GetTagIds negative_id = [-5] ∧
  eval (GetTarget (-5)) negative_id =
    Some (Some (TagResult.mk (-5) 0%float 0%float 0%float 0%float 0%float
                  0%float 0%float 0%float 0%float)) ∧
  eval GetAllTargets negative_id =
    Some [TagResult.mk (-5) 0%float 0%float 0%float 0%float 0%float
            0%float 0%float 0%float 0%float] ∧
  TagResult.mk (-5) 0%float 0%float 0%float 0%float 0%float
    0%float 0%float 0%float 0%float ≠ TagResult.default.
Proof.
  split; [exact negative_id_reachable|].
  split_and!; [by vm_compute | by vm_compute | by vm_compute |].
  intros H. by apply (f_equal TagResult.id) in H.
Qed.

(** C5.  In a reachable world [GetAllTargets()] returns, for the list
    [GetTagIds()] returns, the list of what [ReadTag] returns for each id:
    same length, same order, the k-th record assembled for the k-th id.
    With the table bound, that is the map over the id list of the record
    read from the topics under [targets/<id>]. *)
Theorem GetAllTargets_is_map (w : World) :
  wf w →
  ∃ ts, eval GetAllTargets w = Some ts ∧
    mapM (λ id, eval (ReadTag id) w) (GetTagIds w) = Some ts ∧
    length ts = length (GetTagIds w) ∧
    (∀ (k : nat) id, GetTagIds w !! k = Some id →
       ∃ t, ts !! k = Some t ∧ eval (ReadTag id) w = Some t ∧
            TagResult.id t = id) ∧
    (∀ tbl, table (impl w) = Some tbl →
       ts = map (λ id, read_subs id
                         (NewTagSubs
                            (GetSubTable tbl ("targets/" +:+ to_string id)))
                         (nt w))
              (GetTagIds w)).
Proof.
  intros Hwf.
  destruct (GetAllTargets_spec _ Hwf) as (ts & w' & Hall & Hts).
  exists ts. unfold eval at 1. rewrite Hall. split_and!.
  - done.
  - by apply mapM_Some.
  - symmetry. by eapply Forall2_length.
  - intros k id Hk.
    destruct (Forall2_lookup_l _ _ _ _ _ Hts Hk) as (t & Ht & Hr).
    exists t. split_and!; [done | done |].
    unfold eval in Hr. destruct (ReadTag id w) as [[t' w1]|] eqn:Hrd; [|done].
    injection Hr as <-. by eapply ReadTag_id.
  - intros tbl Ht. clear Hall.
    induction Hts as [|id t ids ts' Hr _ IH]; [done|]. simpl.
    rewrite (ReadTag_eval _ _ tbl) in Hr; [| apply Hwf | done].
    injection Hr as <-. by rewrite IH.
Qed.

(** One tag in view: one record, the one of tag 7. *)
Lemma GetAllTargets_is_map_witness :
  wf one_tag ∧
  ∃ ts, eval GetAllTargets one_tag = Some ts ∧
        mapM (λ id, eval (ReadTag id) one_tag) (GetTagIds one_tag) = Some ts ∧
        length ts = length (GetTagIds one_tag).
Proof.
  pose proof (reachable_wf _ one_tag_reachable) as Hwf.
  split; [exact Hwf|].
  destruct (GetAllTargets_is_map one_tag Hwf) as (ts & H1 & H2 & H3 & _).
  by exists ts.
Defined.

Example one_tag_all : eval GetAllTargets one_tag = Some [tag7].
Proof. vm_compute. reflexivity. Qed.

(** C9, as the code has it.  [GetPrimaryTarget()] narrows the id read from
    [primaryTagId] to [int] and tests the sign of the result.  When the
    narrowed id is not negative, as for every delivered id from 0 to
    [INT_MAX], which narrowing leaves as it is, the result is [ReadTag] of
    the narrowed id, with no look at the id list: the record with that id
    whose nine numbers are the last doubles received on the topics under
    [targets/<id>], 0.0 where none was received.  If that id is not in
    [GetTagIds()], [GetTarget] of the same id returns the empty optional
    while [GetPrimaryTarget] still returns that record. *)
Theorem GetPrimaryTarget_ignores_tag_ids (w : World) (v : Z) :
  wf w →
  GetOr (sub_primary_id (impl w)) (nt w) (-1) = v →
  0 ≤ static_cast_int v →
  GetPrimaryTarget w = ReadTag (static_cast_int v) w ∧
  table (impl w) = Some (GetTable (table_name (impl w))) ∧
  eval GetPrimaryTarget w
  = Some (tag_on_topics (GetTable (table_name (impl w))) (static_cast_int v)
            (nt w)) ∧
  (static_cast_int v ∉ GetTagIds w →
     eval (GetTarget (static_cast_int v)) w = Some None) ∧
  (0 ≤ v ≤ INT_MAX → static_cast_int v = v).
Proof.
  intros Hwf Hv Hnn'.
  assert (Hnn : 0 ≤ static_cast_int
                      (GetOr (sub_primary_id (impl w)) (nt w) (-1)))
    by (by rewrite Hv).
  assert (Hread : GetPrimaryTarget w = ReadTag (static_cast_int v) w).
  { rewrite (GetPrimaryTarget_nonnegative _ Hnn). by rewrite Hv. }
  pose proof (wf_primary_initialized _ Hwf Hnn) as Hi.
  split_and!.
  - exact Hread.
  - by apply initialized_table.
  - unfold eval at 1. rewrite Hread. by apply ReadTag_on_topics.
  - intros Hout. unfold eval. by rewrite (GetTarget_absent _ _ Hout).
  - intros Hrange. apply static_cast_int_fits.
    unfold INT_MIN, INT_MAX in *. lia.
Qed.

(** The primary id is still 7 after tag 7 has left the id list: the primary
    target is the record of tag 7, and the lookup of tag 7 is empty. *)
Lemma GetPrimaryTarget_ignores_tag_ids_witness :
  wf stale ∧
  GetOr (sub_primary_id (impl stale)) (nt stale) (-1) = 7 ∧
  0 ≤ static_cast_int 7 ∧
  (7 ∉ GetTagIds stale) ∧
  eval (GetTarget 7) stale = Some None ∧
  eval GetPrimaryTarget stale = Some tag7.
Proof.
  pose proof (reachable_wf _ stale_reachable) as Hwf.
  assert (Hv : GetOr (sub_primary_id (impl stale)) (nt stale) (-1) = 7)
    by (vm_compute; reflexivity).
  assert (Hr : 0 ≤ static_cast_int 7) by (vm_compute; discriminate).
  assert (Hout : 7 ∉ GetTagIds stale)
    by (rewrite stale_ids; apply not_elem_of_nil).
  destruct (GetPrimaryTarget_ignores_tag_ids stale 7 Hwf Hv Hr)
    as (_ & _ & He & Hstale & _).
  split_and!; [exact Hwf | exact Hv | exact Hr | exact Hout | |].
  - apply Hstale. exact Hout.
  - etrans; [exact He|]. vm_compute. reflexivity.
Defined.

Lemma primary_wraps_negative_reachable : reachable primary_wraps_negative.
Proof. eapply after_reachable. vm_compute. reflexivity. Qed.

Lemma primary_wraps_to_7_reachable : reachable primary_wraps_to_7.
Proof. eapply after_reachable. vm_compute. reflexivity. Qed.

(** C9 as stated fails for delivered ids that do not fit in an [int]: the
    non-negative id 2^31 gives the default record, and the non-negative id
    2^32 + 7 gives the record of tag 7, whose id is 7. *)
Lemma primary_id_wraps :
  reachable primary_wraps_negative ∧
  GetOr (sub_primary_id (impl primary_wraps_negative))
    (nt primary_wraps_negative) (-1) = 2147483648 ∧
  eval GetPrimaryTarget primary_wraps_negative = Some TagResult.default ∧
  TagResult.id TagResult.default ≠ 2147483648 ∧
  reachable primary_wraps_to_7 ∧
  GetOr (sub_primary_id (impl primary_wraps_to_7))
    (nt primary_wraps_to_7) (-1) = 4294967303 ∧
  eval GetPrimaryTarget primary_wraps_to_7 = Some tag7 ∧
  TagResult.id tag7 ≠ 4294967303.
Proof.
  split; [exact primary_wraps_negative_reachable|].
  split_and!; [by vm_compute | by vm_compute | by vm_compute | | by vm_compute
              | by vm_compute | by vm_compute].
  exact primary_wraps_to_7_reachable.
Qed.

Example stale_primary : eval GetPrimaryTarget stale = Some tag7.
Proof. vm_compute. reflexivity. Qed.

(** ** Status *)

Lemma GetStatus_pristine w :
  pristine w →
  GetStatus w = SystemStatus.mk "unknown" 0%float 0%float 0 false.
Proof.
  unfold pristine. intros H.
  pose proof (f_equal sub_status H) as H1.
  pose proof (f_equal sub_fps H) as H2.
  pose proof (f_equal sub_latency H) as H3.
  pose proof (f_equal sub_num_targets H) as H4.
  pose proof (f_equal inst H) as H5.
  destruct w as [[] ? ?]. cbn in H1, H2, H3, H4, H5.
  unfold GetStatus, GetNumTargets, IsConnected, Get, GetOr. cbn [impl nt
    sub_status sub_fps sub_latency sub_num_targets inst].
  by rewrite H1, H2, H3, H4, H5.
Qed.

Lemma GetStatus_initialized w :
  initialized w →
  GetStatus w =
    {| SystemStatus.status :=
         GetOr (Subscribe (GetTopic (GetTable (table_name (impl w))) "status")
                  "unknown") (nt w) "unknown";
       SystemStatus.fps :=
         GetOr (Subscribe (GetTopic (GetTable (table_name (impl w))) "fps")
                  0%float) (nt w) 0%float;
       SystemStatus.latency_ms :=
         GetOr (Subscribe
                  (GetTopic (GetTable (table_name (impl w))) "latencyMs")
                  0%float) (nt w) 0%float;
       SystemStatus.num_targets :=
         static_cast_int
           (GetOr (Subscribe
                     (GetTopic (GetTable (table_name (impl w))) "numTargets")
                     0) (nt w) 0);
       SystemStatus.nt_connected :=
         negb (bool_decide (GetConnections (nt w) = [])) |}.
Proof.
  unfold initialized. intros H.
  pose proof (f_equal sub_status H) as H1.
  pose proof (f_equal sub_fps H) as H2.
  pose proof (f_equal sub_latency H) as H3.
  pose proof (f_equal sub_num_targets H) as H4.
  pose proof (f_equal inst H) as H5.
  destruct w as [[] ? ?]. cbn in H1, H2, H3, H4, H5.
  unfold GetStatus, GetNumTargets, IsConnected, Get. cbn [impl nt
    sub_status sub_fps sub_latency sub_num_targets inst table_name].
  by rewrite <- H1, <- H2, <- H3, <- H4, <- H5.
Qed.

(** What a bound subscriber returns, by what the store holds. *)
Lemma GetOr_Subscribe_cases {T} `{NTType T} topic (d0 d : T) n :
  (inst_values n !! topic = None ∧ GetOr (Subscribe topic d0) n d = d) ∨
  (∃ v, inst_values n !! topic = Some v ∧ nt_unpack v = None ∧
        GetOr (Subscribe topic d0) n d = d) ∨
  (∃ v x, inst_values n !! topic = Some v ∧ nt_unpack v = Some x ∧
          GetOr (Subscribe topic d0) n d = x).
Proof.
  unfold GetOr, Subscribe. cbn [sub_topic].
  destruct (inst_values n !! topic) as [v|]; [|by left].
  right. destruct (nt_unpack v) as [x|] eqn:Hu.
  - right. by exists v, x.
  - left. by exists v.
Qed.

Lemma unknown_in_vocabulary : "unknown" ∈ status_vocabulary.
Proof. apply list_elem_of_In. simpl. tauto. Qed.

(** C6, as the code has it.  [GetStatus()] forwards what was received and
    checks nothing: after [Init], for any received values, [status] is the
    last string received on the [status] topic, "unknown" when there is
    none; [fps] and [latency_ms] are the last doubles received on [fps] and
    [latencyMs], 0.0 when there is none; [num_targets] is the last integer
    received on [numTargets] narrowed to [int], 0 when there is none; before
    [Init] the record holds those defaults.  So the record is within the
    documented ranges whenever the received values are: the status string
    one of the vocabulary, [fps] and [latencyMs] at least zero,
    [numTargets] a non-negative [int]. *)
Theorem GetStatus_forwards_feeds (w : World) :
  wf w →
  (initialized w →
   GetStatus w =
     SystemStatus.mk
       (last_string (nt w)
          (GetTopic (GetTable (table_name (impl w))) "status") "unknown")
       (last_double (nt w) (GetTopic (GetTable (table_name (impl w))) "fps"))
       (last_double (nt w)
          (GetTopic (GetTable (table_name (impl w))) "latencyMs"))
       (static_cast_int
          (last_integer (nt w)
             (GetTopic (GetTable (table_name (impl w))) "numTargets") 0))
       (negb (bool_decide (inst_connections (nt w) = [])))) ∧
  (pristine w →
   GetStatus w = SystemStatus.mk "unknown" 0%float 0%float 0 false) ∧
  ((∀ s, inst_values (nt w)
           !! GetTopic (GetTable (table_name (impl w))) "status"
         = Some (VString s) → s ∈ status_vocabulary) →
   (∀ d, inst_values (nt w)
           !! GetTopic (GetTable (table_name (impl w))) "fps"
         = Some (VDouble d) → PrimFloat.leb 0%float d = true) →
   (∀ d, inst_values (nt w)
           !! GetTopic (GetTable (table_name (impl w))) "latencyMs"
         = Some (VDouble d) → PrimFloat.leb 0%float d = true) →
   (∀ n, inst_values (nt w)
           !! GetTopic (GetTable (table_name (impl w))) "numTargets"
         = Some (VInteger n) → 0 ≤ n ≤ INT_MAX) →
   status_in_range (GetStatus w)).
Proof.
  intros [_ Hs]. split_and!.
  - intros Hi. rewrite (GetStatus_initialized _ Hi).
    unfold GetOr, Subscribe, last_string, last_double, last_integer,
      GetConnections.
    cbn [sub_topic].
    f_equal;
      match goal with
      | |- context [inst_values (nt w) !! ?T] =>
          by destruct (inst_values (nt w) !! T) as [[]|]
      | _ => reflexivity
      end.
  - apply GetStatus_pristine.
  - intros Hstatus Hfps Hlat Hnum.
    destruct Hs as [Hp|Hi].
    { rewrite (GetStatus_pristine _ Hp). unfold status_in_range.
        cbn [SystemStatus.fps SystemStatus.latency_ms SystemStatus.num_targets
             SystemStatus.status].
        split_and!; [reflexivity | reflexivity | lia |].
        exact unknown_in_vocabulary. }
      rewrite (GetStatus_initialized _ Hi). unfold status_in_range.
      cbn [SystemStatus.fps SystemStatus.latency_ms SystemStatus.num_targets
           SystemStatus.status].
      split_and!.
      + destruct (GetOr_Subscribe_cases
                    (GetTopic (GetTable (table_name (impl w))) "fps")
                    0%float 0%float (nt w))
          as [[_ ->]|[(v & _ & _ & ->)|(v & x & Hv & Hu & ->)]];
          [reflexivity | reflexivity |].
        destruct v; try discriminate. injection Hu as ->. by apply Hfps.
      + destruct (GetOr_Subscribe_cases
                    (GetTopic (GetTable (table_name (impl w))) "latencyMs")
                    0%float 0%float (nt w))
          as [[_ ->]|[(v & _ & _ & ->)|(v & x & Hv & Hu & ->)]];
          [reflexivity | reflexivity |].
        destruct v; try discriminate. injection Hu as ->. by apply Hlat.
      + destruct (GetOr_Subscribe_cases
                    (GetTopic (GetTable (table_name (impl w))) "numTargets")
                    0 0 (nt w))
          as [[_ ->]|[(v & _ & _ & ->)|(v & x & Hv & Hu & ->)]];
          [by vm_compute | by vm_compute |].
        destruct v; try discriminate. injection Hu as ->.
        specialize (Hnum _ Hv). rewrite static_cast_int_fits; [lia|].
        unfold INT_MIN, INT_MAX in *. lia.
      + destruct (GetOr_Subscribe_cases
                    (GetTopic (GetTable (table_name (impl w))) "status")
                    "unknown" "unknown" (nt w))
          as [[_ ->]|[(v & _ & _ & ->)|(v & x & Hv & Hu & ->)]];
          [exact unknown_in_vocabulary | exact unknown_in_vocabulary |].
        destruct v; try discriminate. injection Hu as ->. by apply Hstatus.
Qed.

Lemma healthy_reachable : reachable healthy.
Proof. eapply after_reachable. vm_compute. reflexivity. Qed.

Lemma odd_telemetry_initialized : initialized odd_telemetry.
Proof. vm_compute. reflexivity. Qed.

(** Telemetry in range gives a record in range, with the received values;
    telemetry out of range gives a record with the received values all the
    same. *)
Lemma GetStatus_forwards_feeds_witness :
  wf healthy ∧
  status_in_range (GetStatus healthy) ∧
  GetStatus healthy = SystemStatus.mk "running" 30%float 12.5%float 1 false ∧
  wf odd_telemetry ∧
  GetStatus odd_telemetry
  = SystemStatus.mk "calibrating" (-1)%float (-0.5)%float (-3) false.
Proof.
  pose proof (reachable_wf _ healthy_reachable) as Hwf.
  pose proof (reachable_wf _ odd_telemetry_reachable) as Hwf'.
  assert (H1 : ∀ s, inst_values (nt healthy)
                 !! GetTopic (GetTable (table_name (impl healthy))) "status"
               = Some (VString s) → s ∈ status_vocabulary).
  { intros s H. vm_compute in H. injection H as <-.
    apply list_elem_of_In. simpl. tauto. }
  assert (H2 : ∀ d, inst_values (nt healthy)
                 !! GetTopic (GetTable (table_name (impl healthy))) "fps"
               = Some (VDouble d) → PrimFloat.leb 0%float d = true).
  { intros d H. vm_compute in H. injection H as <-. reflexivity. }
  assert (H3 : ∀ d, inst_values (nt healthy)
                 !! GetTopic (GetTable (table_name (impl healthy))) "latencyMs"
               = Some (VDouble d) → PrimFloat.leb 0%float d = true).
  { intros d H. vm_compute in H. injection H as <-. reflexivity. }
  assert (H4 : ∀ n, inst_values (nt healthy)
                 !! GetTopic (GetTable (table_name (impl healthy)))
                      "numTargets"
               = Some (VInteger n) → 0 ≤ n ≤ INT_MAX).
  { intros n H. vm_compute in H. injection H as <-. unfold INT_MAX. lia. }
  destruct (GetStatus_forwards_feeds healthy Hwf) as (Heq & _ & Hin).
  destruct (GetStatus_forwards_feeds odd_telemetry Hwf') as (Heq' & _ & _).
  split_and!; [exact Hwf | exact (Hin H1 H2 H3 H4) | | exact Hwf' |].
  - etrans; [apply Heq; vm_compute; reflexivity|]. vm_compute. reflexivity.
  - etrans; [exact (Heq' odd_telemetry_initialized)|]. vm_compute.
    reflexivity.
Defined.

(** C6 as stated fails: the record for telemetry outside the ranges is
    outside the ranges, field by field. *)
Lemma odd_telemetry_out_of_range :
  reachable odd_telemetry ∧
  GetStatus odd_telemetry =
    SystemStatus.mk "calibrating" (-1)%float (-0.5)%float (-3) false ∧
  PrimFloat.leb 0%float (SystemStatus.fps (GetStatus odd_telemetry)) = false ∧
  PrimFloat.leb 0%float (SystemStatus.latency_ms (GetStatus odd_telemetry))
    = false ∧
  SystemStatus.num_targets (GetStatus odd_telemetry) < 0 ∧
  (SystemStatus.status (GetStatus odd_telemetry) ∉ status_vocabulary) ∧
  ¬ status_in_range (GetStatus odd_telemetry).
Proof.
  assert (Heq : GetStatus odd_telemetry =
    SystemStatus.mk "calibrating" (-1)%float (-0.5)%float (-3) false)
    by (vm_compute; reflexivity).
  split; [exact odd_telemetry_reachable|]. split; [exact Heq|].
  rewrite Heq. cbn [SystemStatus.fps SystemStatus.latency_ms
                    SystemStatus.num_targets SystemStatus.status].
  split_and!; [reflexivity | reflexivity | lia | |].
  - intros Hin%list_elem_of_In. simpl in Hin.
    destruct Hin as [H|[H|[H|[H|[]]]]]; discriminate H.
  - unfold status_in_range.
    cbn [SystemStatus.fps SystemStatus.latency_ms SystemStatus.num_targets
         SystemStatus.status].
    intros (_ & _ & H & _). lia.
Qed.

(** ** Init twice *)

Lemma StartClient4_idempotent identity n :
  StartClient4 identity (StartClient4 identity n) = StartClient4 identity n.
Proof.
  unfold StartClient4. destruct (inst_client n) eqn:Hc; cbn; by rewrite ?Hc.
Qed.

Lemma Init_idempotent server w : Init server (Init server w) = Init server w.
Proof.
  unfold Init, Impl_Init. cbn [impl nt invoked table_name on_new_targets
    data_mutex tag_subs].
  f_equal. case_decide.
  - apply StartClient4_idempotent.
  - unfold StartClient4, SetServer. cbn.
    destruct (inst_client (nt w)); reflexivity.
Qed.

(** C7.  Calling [Init] a second time with the same server address leaves
    the world as the first call left it, for a newly constructed facade and
    for any other; so every query returns the same after two calls as after
    one, whatever is received afterwards. *)
Theorem Init_twice_same_reads (name server : string)
    (n : NetworkTableInstance) :
  Init server (Init server (XNav name n)) = Init server (XNav name n) ∧
  (∀ w, Init server (Init server w) = Init server w) ∧
  (∀ es, run es (Init server (Init server (XNav name n)))
         = run es (Init server (XNav name n))) ∧
  HasTarget (Init server (Init server (XNav name n)))
    = HasTarget (Init server (XNav name n)) ∧
  GetNumTargets (Init server (Init server (XNav name n)))
    = GetNumTargets (Init server (XNav name n)) ∧
  GetTagIds (Init server (Init server (XNav name n)))
    = GetTagIds (Init server (XNav name n)) ∧
  eval GetPrimaryTarget (Init server (Init server (XNav name n)))
    = eval GetPrimaryTarget (Init server (XNav name n)) ∧
  (∀ id, eval (GetTarget id) (Init server (Init server (XNav name n)))
         = eval (GetTarget id) (Init server (XNav name n))) ∧
  eval GetAllTargets (Init server (Init server (XNav name n)))
    = eval GetAllTargets (Init server (XNav name n)) ∧
  GetRobotPose (Init server (Init server (XNav name n)))
    = GetRobotPose (Init server (XNav name n)) ∧
  GetOffsetPoint (Init server (Init server (XNav name n)))
    = GetOffsetPoint (Init server (XNav name n)) ∧
  GetStatus (Init server (Init server (XNav name n)))
    = GetStatus (Init server (XNav name n)) ∧
  IsConnected (Init server (Init server (XNav name n)))
    = IsConnected (Init server (XNav name n)).
Proof.
  split_and!; try intros ?; by rewrite Init_idempotent.
Qed.

(** ** The target count *)

Lemma GetTopic_inj tbl a b : GetTopic tbl a = GetTopic tbl b → a = b.
Proof.
  unfold GetTopic. intros H%(inj (String.append tbl)).
  by apply (inj (String.append "/")) in H.
Qed.

Lemma GetNumTargets_receive_tagIds w ids :
  initialized w →
  GetNumTargets
    (receive (GetTopic (GetTable (table_name (impl w))) "tagIds")
       (VIntegerArray ids) w)
  = GetNumTargets w.
Proof.
  unfold initialized. intros Hi.
  pose proof (f_equal sub_num_targets Hi) as H. cbn in H.
  unfold GetNumTargets, Get, GetOr, receive.
  cbn [impl nt set_values inst_values]. rewrite <- H.
  unfold Subscribe. cbn [sub_topic sub_default].
  rewrite lookup_insert_ne; [done|].
  intros Heq%GetTopic_inj. discriminate Heq.
Qed.

(** C10.  [GetNumTargets()] is the narrowed value of the [numTargets]
    subscriber, and [GetStatus().num_targets] is [GetNumTargets()].  A new
    id list does not change it.  In the world [count_mismatch] the count is
    2 while [GetTagIds()] and [GetAllTargets()] have one element. *)
Theorem GetNumTargets_not_list_length :
  (∀ w, GetNumTargets w
        = static_cast_int (Get (sub_num_targets (impl w)) (nt w))) ∧
  (∀ w, SystemStatus.num_targets (GetStatus w) = GetNumTargets w) ∧
  (∀ w ids, initialized w →
     GetNumTargets
       (receive (GetTopic (GetTable (table_name (impl w))) "tagIds")
          (VIntegerArray ids) w)
     = GetNumTargets w) ∧
  reachable count_mismatch ∧
  GetNumTargets count_mismatch = 2 ∧
  SystemStatus.num_targets (GetStatus count_mismatch) = 2 ∧
  GetTagIds count_mismatch = [7] ∧
  (∃ ts, eval GetAllTargets count_mismatch = Some ts ∧ length ts = 1%nat) ∧
  GetNumTargets count_mismatch
    ≠ Z.of_nat (length (GetTagIds count_mismatch)).
Proof.
  split_and!; try done.
  - apply GetNumTargets_receive_tagIds.
  - exact count_mismatch_reachable.
  - eexists. split; [by vm_compute | done].
Qed.

(** ** The callback *)

Lemma only_cache_rest w w' :
  only_cache w w' →
  invoked w' = invoked w ∧
  on_new_targets (impl w') = on_new_targets (impl w) ∧
  data_mutex (impl w') = data_mutex (impl w).
Proof. unfold only_cache. intros ->. done. Qed.

Lemma call_invoked c w w' :
  call c w = Some w' → invoked w' = invoked w.
Proof.
  destruct c; simpl; unfold exec; try (by intros [= <-]).
  - destruct (GetPrimaryTarget w) as [[t w1]|] eqn:H; [|done].
    intros [= <-].
    apply GetPrimaryTarget_only_cache, only_cache_rest in H. apply H.
  - destruct (GetTarget tag_id w) as [[t w1]|] eqn:H; [|done].
    intros [= <-]. apply GetTarget_only_cache, only_cache_rest in H. apply H.
  - unfold GetAllTargets.
    destruct (GetAllTargets_loop _ _ w) as [[t w1]|] eqn:H; [|done].
    intros [= <-].
    apply GetAllTargets_loop_only_cache, only_cache_rest in H. apply H.
Qed.

Lemma run_invoked es w w' : run es w = Some w' → invoked w' = invoked w.
Proof.
  revert w. induction es as [|e es IH]; intros w; simpl.
  - by intros [= <-].
  - destruct (step e w) as [w1|] eqn:Hs; [|done].
    intros H%IH. rewrite H. destruct e; simpl in Hs.
    + by eapply call_invoked.
    + by injection Hs as <-.
    + by injection Hs as <-.
Qed.

(** C2.  [OnNewTargets] stores the callback, and a second registration
    replaces the first.  No program makes the library call it: whatever the
    application calls and whatever arrives, the log of calls to the callback
    stays empty.  In [callback_program] a frame with tag 7 arrives after two
    registrations; the second callback is the stored one, [GetAllTargets()]
    returns tag 7, and no callback was called. *)
Theorem OnNewTargets_never_invoked :
  (∀ name n es,
     match run es (XNav name n) with
     | Some w => invoked w = []
     | None => True
     end) ∧
  (∀ cb1 cb2 w,
     on_new_targets (impl (OnNewTargets cb2 (OnNewTargets cb1 w)))
     = Some cb2) ∧
  (∃ w, run callback_program fresh = Some w ∧
        on_new_targets (impl w) = Some 2%nat ∧
        eval GetAllTargets w = Some [tag7] ∧
        invoked w = []).
Proof.
  split_and!.
  - intros name n es. destruct (run es (XNav name n)) as [w|] eqn:Hr; [|done].
    by apply run_invoked in Hr.
  - done.
  - eexists. split; [by vm_compute|]. by vm_compute.
Qed.

(** ** Two threads in [GetTagSubs] *)

(** A thread alone does what [GetTagSubs] does. *)
Lemma thread_run_GetTagSubs id w :
  thread_run 4 id PcFind w = GetTagSubs id w.
Proof.
  unfold GetTagSubs. cbn [thread_run thread_step].
  destruct (tag_subs (impl w) !! id) as [ts|]; [done|].
  cbn [thread_run thread_step]. destruct (table (impl w)) as [tbl|]; [|done].
  cbn [thread_run thread_step impl tag_subs set_tag_subs].
  by rewrite lookup_insert_eq.
Qed.

Lemma thread_step_mutex id pc w pc' w' :
  thread_step id pc w = Some (pc', w') →
  data_mutex (impl w') = data_mutex (impl w).
Proof.
  destruct pc; simpl.
  - destruct (tag_subs (impl w) !! id); by intros [= <- <-].
  - destruct (table (impl w)); [|done]. by intros [= <- <-].
  - by intros [= <- <-].
  - destruct (tag_subs (impl w) !! id); [|done]. by intros [= <- <-].
  - done.
Qed.

Lemma run_mutex es w w' :
  run es w = Some w' → data_mutex (impl w') = data_mutex (impl w).
Proof.
  revert w. induction es as [|e es IH]; intros w; simpl.
  - by intros [= <-].
  - destruct (step e w) as [w1|] eqn:Hs; [|done].
    intros H%IH. rewrite H. clear H. destruct e as [c| |]; simpl in Hs.
    + destruct c; simpl in Hs; unfold exec in Hs;
        try (by injection Hs as <-).
      * destruct (GetPrimaryTarget w) as [[t w2]|] eqn:H; [|done].
        injection Hs as <-.
        apply GetPrimaryTarget_only_cache, only_cache_rest in H. apply H.
      * destruct (GetTarget tag_id w) as [[t w2]|] eqn:H; [|done].
        injection Hs as <-.
        apply GetTarget_only_cache, only_cache_rest in H. apply H.
      * unfold GetAllTargets in Hs.
        destruct (GetAllTargets_loop _ _ w) as [[t w2]|] eqn:H; [|done].
        injection Hs as <-.
        apply GetAllTargets_loop_only_cache, only_cache_rest in H. apply H.
    + by injection Hs as <-.
    + by injection Hs as <-.
Qed.

(** C8.  Two threads call [GetTagSubs(7)] on an initialised facade whose
    cache is empty.  After each has executed its lookup and built its
    subscribers, both stand before the insertion into [tag_subs] at once,
    and [data_mutex] is free: the insertions are not serialized.  No
    statement of [GetTagSubs] changes [data_mutex], and no program of the
    application does: it is never held. *)
Theorem GetTagSubs_insertions_overlap :
  (∃ c, sched_run (7, 7) [ThreadA; ThreadB; ThreadA; ThreadB]
          (mkConfig PcFind PcFind started) = Some c ∧
        in_insertion (pc_a c) = true ∧
        in_insertion (pc_b c) = true ∧
        data_mutex (impl (shared c)) = false) ∧
  (∀ ids t c,
     match sched_step ids t c with
     | Some c' => data_mutex (impl (shared c')) = data_mutex (impl (shared c))
     | None => True
     end) ∧
  (∀ name n es,
     match run es (XNav name n) with
     | Some w => data_mutex (impl w) = false
     | None => True
     end).
Proof.
  split_and!.
  - eexists. split; [by vm_compute|]. by vm_compute.
  - intros ids t c. unfold sched_step. destruct t.
    + destruct (thread_step _ (pc_a c) _) as [[pc' w']|] eqn:H; [|done].
      by apply thread_step_mutex in H.
    + destruct (thread_step _ (pc_b c) _) as [[pc' w']|] eqn:H; [|done].
      by apply thread_step_mutex in H.
  - intros name n es. destruct (run es (XNav name n)) as [w|] eqn:Hr; [|done].
    by apply run_mutex in Hr.
Qed.

(** ** No query of a reachable world is undefined *)

Lemma GetTagSubs_again id w ts w' :
  GetTagSubs id w = Some (ts, w') → GetTagSubs id w' = Some (ts, w').
Proof.
  unfold GetTagSubs.
  destruct (tag_subs (impl w) !! id) as [ts0|] eqn:Hl.
  - intros [= <- <-]. by rewrite Hl.
  - destruct (table (impl w)) as [tbl|]; [|done].
    intros [= <- <-]. cbn [impl tag_subs set_tag_subs].
    by rewrite lookup_insert_eq.
Qed.

Lemma call_defined c w : wf w → is_Some (call c w).
Proof.
  intros Hwf. destruct c; simpl; try by eexists.
  - unfold exec, GetPrimaryTarget. case_decide as Hneg; [by eexists|].
    destruct (wf_primary_table w Hwf) as [tbl Ht]; [lia|].
    pose proof (ReadTag_eval w
      (static_cast_int (GetOr (sub_primary_id (impl w)) (nt w) (-1)))
      tbl (proj1 Hwf) Ht) as He.
    unfold eval in He. destruct (ReadTag _ w) as [[t w']|]; [by eexists|done].
  - unfold exec, GetTarget. destruct (std_find _ _) eqn:Hf; [|by eexists].
    assert (Hin : tag_id ∈ GetTagIds w) by (apply std_find_Some; by eexists).
    destruct (wf_ids_table w tag_id Hwf Hin) as [tbl Ht].
    pose proof (ReadTag_eval w tag_id tbl (proj1 Hwf) Ht) as He.
    unfold eval in He. unfold fmap at 2, M_fmap.
    destruct (ReadTag _ w) as [[t w']|]; [by eexists|done].
  - destruct (GetAllTargets_spec w Hwf) as (ts & w' & H & _).
    unfold exec. rewrite H. by eexists.
Qed.

Lemma run_defined es w : wf w → is_Some (run es w).
Proof.
  revert w. induction es as [|e es IH]; intros w Hwf; simpl; [by eexists|].
  destruct e as [c|topic v|peers]; simpl.
  - destruct (call_defined c w Hwf) as [w' Hc]. rewrite Hc.
    apply IH. by eapply wf_call.
  - apply IH. by eapply wf_same_impl; [|exact Hwf].
  - apply IH. by eapply wf_same_impl; [|exact Hwf].
Qed.

(** * Further properties of the library *)

(** ** The per-tag cache only grows *)

Lemma ReadTag_keeps id w t w' k ts :
  ReadTag id w = Some (t, w') →
  tag_subs (impl w) !! k = Some ts → tag_subs (impl w') !! k = Some ts.
Proof.
  intros Hr Hk. destruct (decide (k = id)) as [->|Hne].
  - rewrite (ReadTag_cached _ _ _ Hk) in Hr. by injection Hr as <- <-.
  - apply ReadTag_inv in Hr as (ts' & _ & _ & _ & _ & _ & _ & Hother).
    by rewrite Hother.
Qed.

Lemma GetAllTargets_loop_keeps ids acc w rs w' k ts :
  GetAllTargets_loop ids acc w = Some (rs, w') →
  tag_subs (impl w) !! k = Some ts → tag_subs (impl w') !! k = Some ts.
Proof.
  revert acc w. induction ids as [|id ids IH]; intros acc w; simpl.
  - by intros [= <- <-].
  - unfold mbind, M_bind.
    destruct (ReadTag id w) as [[t w1]|] eqn:Hr; [|done].
    intros Hl Hk. eapply IH; [exact Hl|]. by eapply ReadTag_keeps.
Qed.

Lemma call_keeps c w w' k ts :
  call c w = Some w' →
  tag_subs (impl w) !! k = Some ts → tag_subs (impl w') !! k = Some ts.
Proof.
  destruct c; simpl; unfold exec; try (by intros [= <-]).
  - unfold GetPrimaryTarget. case_decide; [by intros [= <-]|].
    destruct (ReadTag _ w) as [[t w1]|] eqn:Hr; [|done].
    intros [= <-]. by eapply ReadTag_keeps.
  - unfold GetTarget. destruct (std_find _ _); [|by intros [= <-]].
    unfold fmap at 2, M_fmap.
    destruct (ReadTag _ w) as [[t w1]|] eqn:Hr; [|done].
    intros [= <-]. by eapply ReadTag_keeps.
  - unfold GetAllTargets.
    destruct (GetAllTargets_loop _ _ w) as [[rs w1]|] eqn:Hr; [|done].
    intros [= <-]. by eapply GetAllTargets_loop_keeps.
Qed.

(** X1.  A subscriber set, once in [tag_subs], stays there unchanged through
    every program, a later [Init] included: there is no eviction and no
    rebinding.  Asking for it again returns the same set and changes
    nothing. *)
Theorem tag_subs_kept (es : list Event) (w w' : World) (id : Z)
    (ts : TagSubs) :
  run es w = Some w' →
  tag_subs (impl w) !! id = Some ts →
  tag_subs (impl w') !! id = Some ts ∧ GetTagSubs id w' = Some (ts, w').
Proof.
  intros Hrun Hk.
  assert (Hk' : tag_subs (impl w') !! id = Some ts).
  { revert w Hrun Hk. induction es as [|e es IH]; intros w; simpl.
    - by intros [= <-].
    - destruct (step e w) as [w1|] eqn:Hs; [|done].
      intros Hrun Hk. apply (IH w1 Hrun).
      destruct e as [c| |]; simpl in Hs.
      + by eapply call_keeps.
      + by injection Hs as <-.
      + by injection Hs as <-. }
  split; [exact Hk'|]. by apply GetTagSubs_cached.
Qed.

Lemma looked_up_reachable : reachable looked_up.
Proof. eapply after_reachable. vm_compute. reflexivity. Qed.

(** Tag 7's subscribers survive its leaving the view and a second [Init]. *)
Lemma tag_subs_kept_witness :
  let ts := NewTagSubs "/XNav/targets/7" in
  let w' := default fresh (run later_program looked_up) in
  run later_program looked_up = Some w' ∧
  tag_subs (impl looked_up) !! 7 = Some ts ∧
  tag_subs (impl w') !! 7 = Some ts ∧ GetTagSubs 7 w' = Some (ts, w').
Proof.
  cbv zeta.
  assert (H1 : run later_program looked_up
               = Some (default fresh (run later_program looked_up)))
    by (vm_compute; reflexivity).
  assert (H2 : tag_subs (impl looked_up) !! 7
               = Some (NewTagSubs "/XNav/targets/7"))
    by (vm_compute; reflexivity).
  split; [exact H1|]. split; [exact H2|].
  exact (tag_subs_kept later_program looked_up _ 7 _ H1 H2).
Defined.

(** ** Lazy creation: a query caches exactly the ids it reads *)

Lemma ReadTag_dom id w t w' :
  ReadTag id w = Some (t, w') →
  dom (tag_subs (impl w')) = {[id]} ∪ dom (tag_subs (impl w)).
Proof.
  unfold ReadTag, mbind, M_bind, GetTagSubs.
  destruct (tag_subs (impl w) !! id) as [ts|] eqn:Hc.
  - intros [= <- <-]. apply (elem_of_dom_2 (D := gset Z)) in Hc. set_solver.
  - destruct (table (impl w)) as [tbl|]; [|done].
    intros [= <- <-]. cbn [impl tag_subs set_tag_subs].
    by rewrite dom_insert_L.
Qed.

Lemma GetAllTargets_loop_dom ids acc w rs w' :
  GetAllTargets_loop ids acc w = Some (rs, w') →
  dom (tag_subs (impl w')) = list_to_set ids ∪ dom (tag_subs (impl w)).
Proof.
  revert acc w. induction ids as [|id ids IH]; intros acc w; simpl.
  - intros [= <- <-]. set_solver.
  - unfold mbind, M_bind.
    destruct (ReadTag id w) as [[t w1]|] eqn:Hr; [|done].
    intros Hl%IH. rewrite Hl, (ReadTag_dom _ _ _ _ Hr). set_solver.
Qed.

(** X2.  Subscriber sets are created on demand and for nothing else:
    [ReadTag(id)] leaves the cache with [id] added; [GetAllTargets()] adds
    the ids of [GetTagIds()]; [GetTarget(id)] adds [id] when it returns a
    record and nothing when it returns the empty optional;
    [GetPrimaryTarget()] adds nothing when it returns the default record
    for a negative id. *)
Theorem queries_cache_what_they_read :
  (∀ w id,
     match ReadTag id w with
     | Some (_, w') =>
         dom (tag_subs (impl w')) = {[id]} ∪ dom (tag_subs (impl w))
     | None => True
     end) ∧
  (∀ w,
     match GetAllTargets w with
     | Some (_, w') =>
         dom (tag_subs (impl w'))
         = list_to_set (GetTagIds w) ∪ dom (tag_subs (impl w))
     | None => True
     end) ∧
  (∀ w id,
     match GetTarget id w with
     | Some (Some _, w') =>
         dom (tag_subs (impl w')) = {[id]} ∪ dom (tag_subs (impl w))
     | Some (None, w') => w' = w
     | None => True
     end) ∧
  (∀ w,
     match GetPrimaryTarget w with
     | Some (t, w') =>
         (TagResult.id t < 0 → w' = w) ∧
         (0 ≤ TagResult.id t →
          dom (tag_subs (impl w'))
          = {[TagResult.id t]} ∪ dom (tag_subs (impl w)))
     | None => True
     end).
Proof.
  split_and!.
  - intros w id. destruct (ReadTag id w) as [[t w']|] eqn:Hr; [|done].
    by eapply ReadTag_dom.
  - intros w. unfold GetAllTargets.
    destruct (GetAllTargets_loop _ _ w) as [[rs w']|] eqn:Hr; [|done].
    by eapply GetAllTargets_loop_dom.
  - intros w id. unfold GetTarget. destruct (std_find _ _); [|done].
    unfold fmap, M_fmap.
    destruct (ReadTag id w) as [[t w']|] eqn:Hr; [|done].
    by eapply ReadTag_dom.
  - intros w. unfold GetPrimaryTarget. case_decide as Hneg.
    + split; [done|]. cbn [TagResult.default TagResult.id]. lia.
    + destruct (ReadTag _ w) as [[t w']|] eqn:Hr; [|done].
      pose proof (ReadTag_id _ _ _ _ Hr) as Hid. rewrite Hid.
      split; [lia|]. intros _. by eapply ReadTag_dom.
Qed.

(** ** No query dereferences the null table *)

(** X3.  From the constructor on, no program of calls and arrivals has
    undefined behaviour: [GetTagSubs] is reached only with [table] bound,
    because before [Init] the id list is empty and the primary id is the
    sentinel. *)
Theorem no_null_table_dereference (name : string) (n : NetworkTableInstance)
    (es : list Event) :
  is_Some (run es (XNav name n)).
Proof. apply run_defined, wf_XNav. Qed.

(** ** Reads before [Init], and after [Init] without data *)

Lemma pristine_impl w :
  pristine w →
  impl w = set_on_new_targets (on_new_targets (impl w))
             (impl (XNav (table_name (impl w)) (nt w))).
Proof.
  unfold pristine. destruct w as [[] ? ?]. cbn.
  intros H. injection H; intros; subst; reflexivity.
Qed.

(** X4.  Before [Init], whatever the default instance holds: every query
    returns its default ([HasTarget] false, no ids, the default records,
    status "unknown", not connected), [GetTarget] returns the empty
    optional for every id, and the three setters change nothing. *)
Theorem reads_before_Init (w : World) :
  pristine w →
  snapshot w = snapshot_of_defaults false ∧
  (∀ id, GetTarget id w = Some (None, w)) ∧
  (∀ v, SetTurretAngle v w = w) ∧
  (∀ b, SetTurretEnabled b w = w) ∧
  (∀ b, SetMatchMode b w = w).
Proof.
  intros Hp. pose proof (pristine_impl _ Hp) as Hi.
  destruct w as [i n l]. cbn [impl nt] in Hi.
  split_and!.
  - unfold snapshot, HasTarget, GetNumTargets, GetTagIds, GetRobotPose,
      GetOffsetPoint, GetStatus, IsConnected, GetNumTargets, eval,
      GetAllTargets, GetPrimaryTarget, GetTagIds.
    cbn [impl nt]. rewrite Hi. reflexivity.
  - intros id. unfold GetTarget, GetTagIds. cbn [impl nt]. rewrite Hi.
    reflexivity.
  - intros v. unfold SetTurretAngle. cbn [impl nt invoked]. rewrite Hi at 2.
    reflexivity.
  - intros b. unfold SetTurretEnabled. cbn [impl nt invoked]. rewrite Hi at 2.
    reflexivity.
  - intros b. unfold SetMatchMode. cbn [impl nt invoked]. rewrite Hi at 2.
    reflexivity.
Qed.

(** A frame and a connection are there, and the facade reads nothing. *)
Lemma reads_before_Init_witness :
  pristine late_facade ∧
  inst_values (nt late_facade) !! "/XNav/tagIds" = Some (VIntegerArray [7]) ∧
  snapshot late_facade = snapshot_of_defaults false ∧
  GetTarget 7 late_facade = Some (None, late_facade).
Proof.
  assert (Hp : pristine late_facade) by reflexivity.
  destruct (reads_before_Init late_facade Hp) as (Hs & Ht & _).
  split_and!; [exact Hp | by vm_compute | exact Hs | apply Ht].
Defined.

Lemma initialized_impl w : initialized w → impl w = impl (Init0 w).
Proof. unfold initialized. by intros ->. Qed.

(** X5.  After [Init], while no value has been received on the topics
    [Init] subscribed to: every query returns the declared default,
    [GetTarget] returns the empty optional for every id, and no query
    touches the cache.  Only the connection state depends on the
    transport. *)
Theorem reads_without_data (w : World) :
  initialized w →
  (∀ T, T ∈ root_topics (GetTable (table_name (impl w))) →
        inst_values (nt w) !! T = None) →
  snapshot w = snapshot_of_defaults (IsConnected w) ∧
  (∀ id, GetTarget id w = Some (None, w)) ∧
  GetPrimaryTarget w = Some (TagResult.default, w) ∧
  GetAllTargets w = Some ([], w).
Proof.
  intros Hi Hnone. pose proof (initialized_impl _ Hi) as He.
  assert (Hids : GetTagIds w = []).
  { unfold GetTagIds, Get, GetOr. rewrite He. cbn.
    rewrite (Hnone (GetTopic (GetTable (table_name (impl w))) "tagIds"));
      [done|]. apply list_elem_of_In. cbn. tauto. }
  assert (Hprim : GetPrimaryTarget w = Some (TagResult.default, w)).
  { unfold GetPrimaryTarget, GetOr. rewrite He. cbn.
    rewrite (Hnone (GetTopic (GetTable (table_name (impl w)))
                      "primaryTagId")); [done|].
    apply list_elem_of_In. cbn. tauto. }
  assert (Hall : GetAllTargets w = Some ([], w)).
  { unfold GetAllTargets. by rewrite Hids. }
  split_and!; [| | exact Hprim | exact Hall].
  - unfold snapshot, eval. rewrite Hprim, Hall, Hids.
    unfold HasTarget, GetNumTargets, GetRobotPose, GetOffsetPoint, GetStatus,
      GetNumTargets, Get, GetOr.
    rewrite He. cbn.
    repeat match goal with
    | |- context [inst_values (nt w) !! ?T] =>
        rewrite (Hnone T) by (apply list_elem_of_In; cbn; tauto)
    end.
    reflexivity.
  - intros id. apply GetTarget_absent. rewrite Hids. apply not_elem_of_nil.
Qed.

(** Just after [Init()], nothing received. *)
Lemma reads_without_data_witness :
  initialized started ∧
  snapshot started = snapshot_of_defaults false ∧
  GetTarget 7 started = Some (None, started).
Proof.
  assert (Hi : initialized started) by reflexivity.
  assert (Hn : ∀ T, T ∈ root_topics (GetTable (table_name (impl started))) →
                    inst_values (nt started) !! T = None)
    by (intros T _; apply lookup_empty).
  destruct (reads_without_data started Hi Hn) as (Hs & Ht & _).
  split_and!; [exact Hi | exact Hs | apply Ht].
Defined.

(** ** The offset point *)

(** X6.  [GetOffsetPoint()] returns the eight received values as they are:
    the numbers are not zeroed when [valid] is false, and [tag_id] is the
    received integer narrowed to [int]. *)
Theorem GetOffsetPoint_forwards (w : World) (valid : bool) (id : Z)
    (x y z d tx ty : double) :
  initialized w →
  inst_values (nt w)
    !! GetTopic (GetSubTable (GetTable (table_name (impl w))) "offsetPoint")
         "valid" = Some (VBoolean valid) →
  inst_values (nt w)
    !! GetTopic (GetSubTable (GetTable (table_name (impl w))) "offsetPoint")
         "tag_id" = Some (VInteger id) →
  inst_values (nt w)
    !! GetTopic (GetSubTable (GetTable (table_name (impl w))) "offsetPoint")
         "x" = Some (VDouble x) →
  inst_values (nt w)
    !! GetTopic (GetSubTable (GetTable (table_name (impl w))) "offsetPoint")
         "y" = Some (VDouble y) →
  inst_values (nt w)
    !! GetTopic (GetSubTable (GetTable (table_name (impl w))) "offsetPoint")
         "z" = Some (VDouble z) →
  inst_values (nt w)
    !! GetTopic (GetSubTable (GetTable (table_name (impl w))) "offsetPoint")
         "directDistance" = Some (VDouble d) →
  inst_values (nt w)
    !! GetTopic (GetSubTable (GetTable (table_name (impl w))) "offsetPoint")
         "tx" = Some (VDouble tx) →
  inst_values (nt w)
    !! GetTopic (GetSubTable (GetTable (table_name (impl w))) "offsetPoint")
         "ty" = Some (VDouble ty) →
  GetOffsetPoint w = OffsetPoint.mk (static_cast_int id) x y z d tx ty valid.
Proof.
  intros Hi Hv Hid Hx Hy Hz Hd Htx Hty.
  unfold GetOffsetPoint, GetOr. rewrite (initialized_impl _ Hi). cbn.
  by rewrite Hv, Hid, Hx, Hy, Hz, Hd, Htx, Hty.
Qed.

Lemma offset_invalid_reachable : reachable offset_invalid.
Proof. eapply after_reachable. vm_compute. reflexivity. Qed.

(** An offset point that is not valid keeps its numbers. *)
Lemma GetOffsetPoint_forwards_witness :
  initialized offset_invalid ∧
  GetOffsetPoint offset_invalid =
    OffsetPoint.mk 4 0.5%float (-0.25)%float 3%float 3.125%float 9.5%float
      (-4.75)%float false.
Proof.
  assert (Hi : initialized offset_invalid) by (vm_compute; reflexivity).
  split; [exact Hi|].
  exact (GetOffsetPoint_forwards offset_invalid false 4 _ _ _ _ _ _ Hi
           eq_refl eq_refl eq_refl eq_refl eq_refl eq_refl eq_refl eq_refl).
Defined.

(** ** Topic names *)

Lemma has_slash_app s t : has_slash (s +:+ t) = has_slash s || has_slash t.
Proof.
  induction s as [|c s IH]; [reflexivity|].
  rewrite append_cons. cbn [has_slash]. by rewrite IH, orb_assoc.
Qed.

Lemma pretty_N_char_no_slash x : Ascii.eqb (pretty_N_char x) "/" = false.
Proof. unfold pretty_N_char. by repeat case_match. Qed.

Lemma pretty_N_go_no_slash x s :
  has_slash s = false → has_slash (pretty_N_go x s) = false.
Proof.
  revert s. induction (N.lt_wf_0 x) as [x _ IH]; intros s Hs.
  assert (x = 0 ∨ 0 < x)%N as [->|Hpos] by lia.
  - by rewrite pretty_N_go_0.
  - rewrite pretty_N_go_step by done. apply IH.
    + by apply N.div_lt.
    + cbn [has_slash]. by rewrite pretty_N_char_no_slash, Hs.
Qed.

(** The digits of an id hold no separator. *)
Lemma to_string_no_slash v : has_slash (to_string v) = false.
Proof.
  assert (Hn : ∀ x : N, has_slash (pretty x) = false).
  { intros x. unfold pretty, pretty_N. case_decide; [reflexivity|].
    by apply pretty_N_go_no_slash. }
  unfold to_string, pretty, pretty_Z. destruct v as [|p|p].
  - reflexivity.
  - apply (Hn (Npos p)).
  - rewrite has_slash_app. cbn [has_slash orb]. apply (Hn (Npos p)).
Qed.

Lemma split_at_slash s1 s2 a b :
  has_slash s1 = false → has_slash s2 = false →
  s1 +:+ "/" +:+ a = s2 +:+ "/" +:+ b → s1 = s2 ∧ a = b.
Proof.
  revert s2. induction s1 as [|c1 s1 IH]; intros [|c2 s2];
    cbn [has_slash]; intros H1 H2 H.
  - change (String "/" a = String "/" b) in H. by injection H as ->.
  - change (String "/" a = String c2 (s2 +:+ "/" +:+ b)) in H.
    injection H as <- _. simpl in H2. discriminate H2.
  - change (String c1 (s1 +:+ "/" +:+ a) = String "/" b) in H.
    injection H as -> _. simpl in H1. discriminate H1.
  - change (String c1 (s1 +:+ "/" +:+ a) = String c2 (s2 +:+ "/" +:+ b)) in H.
    apply orb_false_iff in H1 as [_ H1]. apply orb_false_iff in H2 as [_ H2].
    injection H as -> Hrest. by destruct (IH _ H1 H2 Hrest) as [-> ->].
Qed.

(** The topics as paths below the table. *)
Lemma root_topics_paths tbl :
  root_topics tbl =
    map (String.append tbl)
      [ "/hasTarget"; "/numTargets"; "/primaryTagId"; "/status"; "/fps";
        "/latencyMs"; "/robotPose"; "/tagIds"; "/offsetPoint/valid";
        "/offsetPoint/x"; "/offsetPoint/y"; "/offsetPoint/z";
        "/offsetPoint/directDistance"; "/offsetPoint/tx"; "/offsetPoint/ty";
        "/offsetPoint/tag_id" ].
Proof.
  unfold root_topics, GetTopic, GetSubTable. cbn [map].
  by rewrite !append_assoc.
Qed.

Lemma input_topics_paths tbl :
  input_topics tbl =
    map (String.append tbl)
      [ "/input/turretAngle"; "/input/turretEnabled"; "/input/matchMode" ].
Proof.
  unfold input_topics, GetTopic, GetSubTable. cbn [map].
  by rewrite !append_assoc.
Qed.

(** Two tags never share a topic, nor do two fields of a tag. *)
Lemma tag_topic_inj tbl i j f g :
  GetTopic (GetSubTable tbl ("targets/" +:+ to_string i)) f
  = GetTopic (GetSubTable tbl ("targets/" +:+ to_string j)) g →
  i = j ∧ f = g.
Proof.
  rewrite !tag_topic_path. intros H%(inj (String.append tbl)).
  apply (inj (String.append "/targets/")) in H.
  apply split_at_slash in H as [Hid ->]; [|apply to_string_no_slash..].
  split; [|done]. by apply (inj pretty) in Hid.
Qed.

Lemma in_tag_topics tbl id T :
  T ∈ tag_topics tbl id ↔
  ∃ f, f ∈ tag_fields ∧
       T = GetTopic (GetSubTable tbl ("targets/" +:+ to_string id)) f.
Proof.
  unfold tag_topics. rewrite list_elem_of_fmap. naive_solver.
Qed.

Lemma targets_path_not_root r X :
  r ∈ [ "/hasTarget"; "/numTargets"; "/primaryTagId"; "/status"; "/fps";
        "/latencyMs"; "/robotPose"; "/tagIds"; "/offsetPoint/valid";
        "/offsetPoint/x"; "/offsetPoint/y"; "/offsetPoint/z";
        "/offsetPoint/directDistance"; "/offsetPoint/tx"; "/offsetPoint/ty";
        "/offsetPoint/tag_id"; "/input/turretAngle"; "/input/turretEnabled";
        "/input/matchMode" ] →
  r ≠ "/targets/" +:+ X.
Proof.
  intros Hr%list_elem_of_In Heq. cbn [In] in Hr.
  change ("/targets/" +:+ X)
    with (String "/" (String "t" (String "a" (String "r" (String "g"
           (String "e" (String "t" (String "s" (String "/" X)))))))))
    in Heq.
  repeat (destruct Hr as [<-|Hr]; [discriminate Heq|]). done.
Qed.

(** The per-tag topics are apart from the topics of [Init] and from the
    input topics, and those two from each other. *)
Lemma tag_topics_not_root tbl id T :
  T ∈ tag_topics tbl id → (T ∉ root_topics tbl) ∧ (T ∉ input_topics tbl).
Proof.
  intros (f & _ & ->)%in_tag_topics. rewrite tag_topic_path.
  rewrite root_topics_paths, input_topics_paths.
  split; intros (r & Heq & Hr)%list_elem_of_fmap;
    apply (inj (String.append tbl)) in Heq;
    (eapply (targets_path_not_root r); [|by rewrite <- Heq]);
    apply list_elem_of_In; apply list_elem_of_In in Hr; cbn [In] in *; tauto.
Qed.

Lemma input_topics_not_root tbl T :
  T ∈ input_topics tbl → T ∉ root_topics tbl.
Proof.
  rewrite root_topics_paths, input_topics_paths.
  intros (r & -> & Hr)%list_elem_of_fmap (r' & Heq & Hr')%list_elem_of_fmap.
  apply (inj (String.append tbl)) in Heq. subst r'.
  apply list_elem_of_In in Hr, Hr'. cbn [In] in Hr, Hr'.
  repeat (destruct Hr as [<-|Hr];
          [repeat (destruct Hr' as [Hr'|Hr']; [discriminate Hr'|]); done|]).
  done.
Qed.

(** ** What the queries depend on *)

Lemma GetOr_agree {T} `{NTType T} (s : Subscriber T) n1 n2 d :
  (∀ name, sub_topic s = Some name →
           inst_values n1 !! name = inst_values n2 !! name) →
  GetOr s n1 d = GetOr s n2 d.
Proof.
  intros Hag. unfold GetOr. destruct (sub_topic s) as [name|]; [|done].
  by rewrite (Hag name).
Qed.

Lemma read_subs_agree tbl id n1 n2 :
  (∀ T, T ∈ tag_topics tbl id → inst_values n1 !! T = inst_values n2 !! T) →
  read_subs id (NewTagSubs (GetSubTable tbl ("targets/" +:+ to_string id))) n1
  = read_subs id (NewTagSubs (GetSubTable tbl ("targets/" +:+ to_string id)))
      n2.
Proof.
  intros Hag. unfold read_subs, NewTagSubs, Get.
  cbn [TagSubs.tx TagSubs.ty TagSubs.x TagSubs.y TagSubs.z TagSubs.distance
       TagSubs.yaw TagSubs.pitch TagSubs.roll].
  f_equal; apply GetOr_agree; intros name [= <-]; apply Hag;
    unfold tag_topics; apply list_elem_of_In; cbn [map tag_fields In]; tauto.
Qed.

(** With the table bound, the three queries that assemble tags in closed
    form. *)
Lemma eval_GetPrimaryTarget w tbl :
  cache_ok w → table (impl w) = Some tbl →
  eval GetPrimaryTarget w =
    Some (if decide
               (static_cast_int (GetOr (sub_primary_id (impl w)) (nt w) (-1))
                < 0)
          then TagResult.default
          else read_subs
                 (static_cast_int
                    (GetOr (sub_primary_id (impl w)) (nt w) (-1)))
                 (NewTagSubs
                    (GetSubTable tbl
                       ("targets/" +:+
                        to_string
                          (static_cast_int
                             (GetOr (sub_primary_id (impl w)) (nt w) (-1))))))
                 (nt w)).
Proof.
  intros Hc Ht. unfold eval at 1, GetPrimaryTarget. case_decide; [done|].
  by apply ReadTag_eval.
Qed.

Lemma eval_GetTarget w tbl id :
  cache_ok w → table (impl w) = Some tbl →
  eval (GetTarget id) w =
    Some (if decide (id ∈ GetTagIds w)
          then Some (read_subs id
                       (NewTagSubs
                          (GetSubTable tbl ("targets/" +:+ to_string id)))
                       (nt w))
          else None).
Proof.
  intros Hc Ht. case_decide as Hin.
  - unfold eval. rewrite (GetTarget_present _ _ Hin).
    fold (eval (Some <$> ReadTag id) w).
    by rewrite eval_fmap, (ReadTag_eval _ _ tbl).
  - unfold eval. by rewrite (GetTarget_absent _ _ Hin).
Qed.

Lemma eval_GetAllTargets w tbl :
  cache_ok w → table (impl w) = Some tbl →
  eval GetAllTargets w =
    Some (map (λ id, read_subs id
                       (NewTagSubs
                          (GetSubTable tbl ("targets/" +:+ to_string id)))
                       (nt w))
            (GetTagIds w)).
Proof.
  intros Hc Ht.
  destruct (GetAllTargets_loop_total (GetTagIds w) [] w) as [[ts w'] Hl].
  { intros id _. rewrite (ReadTag_eval _ _ tbl); [by eexists | done | done]. }
  unfold eval, GetAllTargets. rewrite Hl. cbn. f_equal.
  apply GetAllTargets_loop_spec in Hl as (ts' & -> & Hall). cbn.
  induction Hall as [|id t ids ts Hr _ IH]; [done|]. cbn.
  rewrite (ReadTag_eval _ _ tbl) in Hr by done. injection Hr as <-.
  by rewrite IH.
Qed.

Lemma map_read_subs_agree tbl ids n1 n2 :
  (∀ id, id ∈ ids → ∀ T, T ∈ tag_topics tbl id →
         inst_values n1 !! T = inst_values n2 !! T) →
  map (λ id, read_subs id
               (NewTagSubs (GetSubTable tbl ("targets/" +:+ to_string id)))
               n1) ids
  = map (λ id, read_subs id
                 (NewTagSubs (GetSubTable tbl ("targets/" +:+ to_string id)))
                 n2) ids.
Proof.
  induction ids as [|id ids IH]; intros Hag; [done|]. cbn.
  rewrite (read_subs_agree tbl id n1 n2), IH; [done | |].
  - intros id' Hin. apply Hag. by right.
  - apply Hag. by left.
Qed.

(** Two initialised worlds of the same table that hold the same values on
    the topics of [Init] and the same connections answer alike. *)
Lemma flat_reads_agree w1 w2 :
  initialized w1 → initialized w2 →
  table_name (impl w1) = table_name (impl w2) →
  (∀ T, T ∈ root_topics (GetTable (table_name (impl w1))) →
        inst_values (nt w1) !! T = inst_values (nt w2) !! T) →
  inst_connections (nt w1) = inst_connections (nt w2) →
  HasTarget w1 = HasTarget w2 ∧
  GetNumTargets w1 = GetNumTargets w2 ∧
  GetTagIds w1 = GetTagIds w2 ∧
  GetOr (sub_primary_id (impl w1)) (nt w1) (-1)
    = GetOr (sub_primary_id (impl w2)) (nt w2) (-1) ∧
  GetRobotPose w1 = GetRobotPose w2 ∧
  GetOffsetPoint w1 = GetOffsetPoint w2 ∧
  GetStatus w1 = GetStatus w2 ∧
  IsConnected w1 = IsConnected w2.
Proof.
  intros Hi1 Hi2 Hname Hroot Hconn.
  pose proof (initialized_impl _ Hi1) as He1.
  pose proof (initialized_impl _ Hi2) as He2.
  unfold HasTarget, GetTagIds, GetRobotPose, GetOffsetPoint, GetStatus,
    IsConnected, GetNumTargets, GetConnections, Get, GetOr.
  rewrite He1, He2. cbn. rewrite <- Hname, <- Hconn.
  repeat match goal with
  | |- context [inst_values (nt w2) !! ?T] =>
      rewrite <- (Hroot T) by (apply list_elem_of_In; cbn; tauto)
  end.
  done.
Qed.

Lemma tag_reads_agree w1 w2 id :
  wf w1 → wf w2 → initialized w1 → initialized w2 →
  table_name (impl w1) = table_name (impl w2) →
  GetTagIds w1 = GetTagIds w2 →
  (∀ T, T ∈ tag_topics (GetTable (table_name (impl w1))) id →
        inst_values (nt w1) !! T = inst_values (nt w2) !! T) →
  eval (ReadTag id) w1 = eval (ReadTag id) w2 ∧
  eval (GetTarget id) w1 = eval (GetTarget id) w2.
Proof.
  intros [Hc1 _] [Hc2 _] Hi1 Hi2 Hname Hids Htag.
  pose proof (initialized_table _ Hi1) as Ht1.
  pose proof (initialized_table _ Hi2) as Ht2. rewrite <- Hname in Ht2.
  rewrite (ReadTag_eval _ _ _ Hc1 Ht1), (ReadTag_eval _ _ _ Hc2 Ht2).
  rewrite (eval_GetTarget _ _ _ Hc1 Ht1), (eval_GetTarget _ _ _ Hc2 Ht2).
  rewrite <- Hids, (read_subs_agree _ _ _ _ Htag). done.
Qed.

Lemma snapshot_agree w1 w2 :
  wf w1 → wf w2 → initialized w1 → initialized w2 →
  table_name (impl w1) = table_name (impl w2) →
  (∀ T, T ∈ root_topics (GetTable (table_name (impl w1))) →
        inst_values (nt w1) !! T = inst_values (nt w2) !! T) →
  inst_connections (nt w1) = inst_connections (nt w2) →
  (∀ id,
     id ∈ static_cast_int (GetOr (sub_primary_id (impl w1)) (nt w1) (-1))
          :: GetTagIds w1 →
     ∀ T, T ∈ tag_topics (GetTable (table_name (impl w1))) id →
          inst_values (nt w1) !! T = inst_values (nt w2) !! T) →
  snapshot w1 = snapshot w2.
Proof.
  intros Hwf1 Hwf2 Hi1 Hi2 Hname Hroot Hconn Htags.
  destruct (flat_reads_agree _ _ Hi1 Hi2 Hname Hroot Hconn)
    as (H1 & H2 & H3 & H4 & H5 & H6 & H7 & H8).
  pose proof (initialized_table _ Hi1) as Ht1.
  pose proof (initialized_table _ Hi2) as Ht2. rewrite <- Hname in Ht2.
  unfold snapshot.
  rewrite (eval_GetPrimaryTarget _ _ (proj1 Hwf1) Ht1),
    (eval_GetPrimaryTarget _ _ (proj1 Hwf2) Ht2),
    (eval_GetAllTargets _ _ (proj1 Hwf1) Ht1),
    (eval_GetAllTargets _ _ (proj1 Hwf2) Ht2).
  rewrite <- H1, <- H2, <- H3, <- H4, <- H5, <- H6, <- H7, <- H8.
  rewrite (map_read_subs_agree _ (GetTagIds w1) (nt w1) (nt w2)).
  2:{ intros id Hin. apply Htags. by right. }
  case_decide; [done|].
  rewrite (read_subs_agree _ _ (nt w1) (nt w2)); [done|].
  apply Htags. by left.
Qed.

(** X7.  What the queries return is a function of the table name, the
    values held on the topics [Init] subscribed to, the values held on the
    per-tag topics of the ids in view and of the primary id, and the list of
    connections.  The cache, the stored callback, the server address, and
    every other topic of the instance have no influence. *)
Theorem snapshot_determined (w1 w2 : World) :
  wf w1 → wf w2 → initialized w1 → initialized w2 →
  table_name (impl w1) = table_name (impl w2) →
  (∀ T, T ∈ root_topics (GetTable (table_name (impl w1))) →
        inst_values (nt w1) !! T = inst_values (nt w2) !! T) →
  inst_connections (nt w1) = inst_connections (nt w2) →
  (∀ id,
     (∀ T, T ∈ tag_topics (GetTable (table_name (impl w1))) id →
           inst_values (nt w1) !! T = inst_values (nt w2) !! T) →
     eval (GetTarget id) w1 = eval (GetTarget id) w2) ∧
  ((∀ id,
      id ∈ static_cast_int (GetOr (sub_primary_id (impl w1)) (nt w1) (-1))
           :: GetTagIds w1 →
      ∀ T, T ∈ tag_topics (GetTable (table_name (impl w1))) id →
           inst_values (nt w1) !! T = inst_values (nt w2) !! T) →
   snapshot w1 = snapshot w2).
Proof.
  intros Hwf1 Hwf2 Hi1 Hi2 Hname Hroot Hconn. split.
  - intros id Htag.
    destruct (flat_reads_agree _ _ Hi1 Hi2 Hname Hroot Hconn)
      as (_ & _ & Hids & _).
    by apply tag_reads_agree.
  - by apply snapshot_agree.
Qed.

Lemma other_history_reachable : reachable other_history.
Proof. eapply after_reachable. vm_compute. reflexivity. Qed.

(** The same frame after two different histories: the same answers. *)
Lemma snapshot_determined_witness :
  wf looked_up ∧ wf other_history ∧
  on_new_targets (impl looked_up) ≠ on_new_targets (impl other_history) ∧
  tag_subs (impl looked_up) ≠ tag_subs (impl other_history) ∧
  inst_server (nt looked_up) ≠ inst_server (nt other_history) ∧
  snapshot looked_up = snapshot other_history.
Proof.
  pose proof (reachable_wf _ looked_up_reachable) as Hwf1.
  pose proof (reachable_wf _ other_history_reachable) as Hwf2.
  assert (Hi1 : initialized looked_up) by (vm_compute; reflexivity).
  assert (Hi2 : initialized other_history) by (vm_compute; reflexivity).
  assert (Hroot : ∀ T,
            T ∈ root_topics (GetTable (table_name (impl looked_up))) →
            inst_values (nt looked_up) !! T
            = inst_values (nt other_history) !! T).
  { intros T HT%list_elem_of_In. vm_compute in HT.
    repeat (destruct HT as [<-|HT]; [vm_compute; reflexivity|]). done. }
  assert (Htags : ∀ id,
            id ∈ static_cast_int
                   (GetOr (sub_primary_id (impl looked_up)) (nt looked_up)
                      (-1)) :: GetTagIds looked_up →
            ∀ T, T ∈ tag_topics (GetTable (table_name (impl looked_up))) id →
                 inst_values (nt looked_up) !! T
                 = inst_values (nt other_history) !! T).
  { intros id Hin%list_elem_of_In. vm_compute in Hin.
    assert (id = 7) as -> by (destruct Hin as [<-|[<-|[]]]; reflexivity).
    intros T HT%list_elem_of_In. vm_compute in HT.
    repeat (destruct HT as [<-|HT]; [vm_compute; reflexivity|]). done. }
  split_and!; [exact Hwf1 | exact Hwf2 | | | |].
  - vm_compute. discriminate.
  - intros Heq. apply (f_equal (λ m, m !! 7)) in Heq. vm_compute in Heq.
    discriminate Heq.
  - vm_compute. discriminate.
  - exact (proj2 (snapshot_determined looked_up other_history Hwf1 Hwf2
                    Hi1 Hi2 eq_refl Hroot eq_refl) Htags).
Defined.

(** ** Arrivals on other topics *)

Lemma initialized_same_impl w w' :
  impl w' = impl w → initialized w → initialized w'.
Proof.
  destruct w as [i n l], w' as [i' n' l']. cbn [impl]. intros ->.
  unfold initialized. done.
Qed.

Lemma receive_lookup_ne T T' v w :
  T ≠ T' →
  inst_values (nt w) !! T' = inst_values (nt (receive T v w)) !! T'.
Proof.
  intros Hne. unfold receive. cbn [nt set_values inst_values].
  by rewrite lookup_insert_ne.
Qed.

Lemma receive_elsewhere_tag w T v id :
  wf w → initialized w →
  T ∉ root_topics (GetTable (table_name (impl w))) →
  T ∉ tag_topics (GetTable (table_name (impl w))) id →
  eval (ReadTag id) (receive T v w) = eval (ReadTag id) w ∧
  eval (GetTarget id) (receive T v w) = eval (GetTarget id) w.
Proof.
  intros Hwf Hi Hroot Htag.
  assert (Hwf' : wf (receive T v w)) by (by eapply wf_same_impl; [|exact Hwf]).
  assert (Hi' : initialized (receive T v w))
    by (by eapply initialized_same_impl; [|exact Hi]).
  assert (Hr : ∀ T', T' ∈ root_topics (GetTable (table_name (impl w))) →
                     inst_values (nt w) !! T'
                     = inst_values (nt (receive T v w)) !! T').
  { intros T' HT'. apply receive_lookup_ne. by intros ->. }
  destruct (flat_reads_agree w (receive T v w) Hi Hi' eq_refl Hr eq_refl)
    as (_ & _ & Hids & _).
  destruct (tag_reads_agree w (receive T v w) id Hwf Hwf' Hi Hi' eq_refl Hids)
    as [H1 H2]; [|by split].
  intros T' HT'. apply receive_lookup_ne. by intros ->.
Qed.

Lemma receive_elsewhere_snapshot w T v :
  wf w → initialized w →
  T ∉ root_topics (GetTable (table_name (impl w))) →
  (∀ id,
     id ∈ static_cast_int (GetOr (sub_primary_id (impl w)) (nt w) (-1))
          :: GetTagIds w →
     T ∉ tag_topics (GetTable (table_name (impl w))) id) →
  snapshot (receive T v w) = snapshot w.
Proof.
  intros Hwf Hi Hroot Htags. symmetry.
  apply snapshot_agree;
    [ exact Hwf | by eapply wf_same_impl; [|exact Hwf] | exact Hi
    | by eapply initialized_same_impl; [|exact Hi] | reflexivity
    | | reflexivity | ].
  - intros T' HT'. apply receive_lookup_ne. by intros ->.
  - intros id Hin T' HT'. apply receive_lookup_ne. intros ->.
    by apply (Htags id Hin).
Qed.

(** X8.  A value arriving on a topic the facade is not subscribed to changes
    no answer: if the topic is none of the topics of [Init], [GetTarget(id)]
    is unchanged for every id whose per-tag topics do not include it, and
    all other queries are unchanged when it is not a per-tag topic of the
    primary id or of an id in view. *)
Theorem receive_elsewhere (w : World) (T : string) (v : Value) :
  wf w → initialized w →
  T ∉ root_topics (GetTable (table_name (impl w))) →
  (∀ id, T ∉ tag_topics (GetTable (table_name (impl w))) id →
         eval (GetTarget id) (receive T v w) = eval (GetTarget id) w) ∧
  ((∀ id,
      id ∈ static_cast_int (GetOr (sub_primary_id (impl w)) (nt w) (-1))
           :: GetTagIds w →
      T ∉ tag_topics (GetTable (table_name (impl w))) id) →
   snapshot (receive T v w) = snapshot w).
Proof.
  intros Hwf Hi Hroot. split.
  - intros id Htag. by apply receive_elsewhere_tag.
  - by apply receive_elsewhere_snapshot.
Qed.

(** A value of another program's topic arrives while tag 7 is in view. *)
Lemma receive_elsewhere_witness :
  wf one_tag ∧ initialized one_tag ∧
  snapshot (receive "/SmartDashboard/auto" (VInteger 1) one_tag)
  = snapshot one_tag.
Proof.
  pose proof (reachable_wf _ one_tag_reachable) as Hwf.
  assert (Hi : initialized one_tag) by (vm_compute; reflexivity).
  assert (Hroot : "/SmartDashboard/auto"
                  ∉ root_topics (GetTable (table_name (impl one_tag)))).
  { intros HT%list_elem_of_In. vm_compute in HT.
    repeat (destruct HT as [HT|HT]; [discriminate HT|]). done. }
  assert (Htags : ∀ id,
            id ∈ static_cast_int
                   (GetOr (sub_primary_id (impl one_tag)) (nt one_tag) (-1))
                 :: GetTagIds one_tag →
            "/SmartDashboard/auto"
            ∉ tag_topics (GetTable (table_name (impl one_tag))) id).
  { intros id Hin%list_elem_of_In. vm_compute in Hin.
    assert (id = 7) as -> by (destruct Hin as [<-|[<-|[]]]; reflexivity).
    intros HT%list_elem_of_In. vm_compute in HT.
    repeat (destruct HT as [HT|HT]; [discriminate HT|]). done. }
  split_and!; [exact Hwf | exact Hi |].
  exact (proj2 (receive_elsewhere one_tag _ (VInteger 1) Hwf Hi Hroot) Htags).
Defined.

(** ** The topics of one tag *)

Lemma tag_topic_elsewhere tbl i j f :
  f ∈ tag_fields → i ≠ j →
  GetTopic (GetSubTable tbl ("targets/" +:+ to_string i)) f
  ∉ tag_topics tbl j.
Proof.
  intros Hf Hne (g & _ & Heq)%in_tag_topics.
  by apply tag_topic_inj in Heq as [? _].
Qed.

Lemma tag_topic_not_root tbl i f :
  f ∈ tag_fields →
  GetTopic (GetSubTable tbl ("targets/" +:+ to_string i)) f
  ∉ root_topics tbl.
Proof.
  intros Hf. apply (tag_topics_not_root tbl i), in_tag_topics. by exists f.
Qed.

(** X9.  Tags do not mix: a value arriving on a per-tag topic of id [i]
    changes nothing of what [ReadTag] and [GetTarget] return for any other
    id, and changes no answer at all while [i] is neither in view nor the
    primary id. *)
Theorem tags_do_not_mix (w : World) (i j : Z) (f : string) (v : Value) :
  wf w → initialized w → f ∈ tag_fields → i ≠ j →
  eval (ReadTag j)
    (receive (GetTopic (GetSubTable (GetTable (table_name (impl w)))
                          ("targets/" +:+ to_string i)) f) v w)
  = eval (ReadTag j) w ∧
  eval (GetTarget j)
    (receive (GetTopic (GetSubTable (GetTable (table_name (impl w)))
                          ("targets/" +:+ to_string i)) f) v w)
  = eval (GetTarget j) w ∧
  (i ∉ static_cast_int (GetOr (sub_primary_id (impl w)) (nt w) (-1))
       :: GetTagIds w →
   snapshot
     (receive (GetTopic (GetSubTable (GetTable (table_name (impl w)))
                           ("targets/" +:+ to_string i)) f) v w)
   = snapshot w).
Proof.
  intros Hwf Hi Hf Hne.
  pose proof (tag_topic_not_root (GetTable (table_name (impl w))) i f Hf)
    as Hroot.
  destruct (receive_elsewhere_tag w _ v j Hwf Hi Hroot
              (tag_topic_elsewhere _ i j f Hf Hne)) as [H1 H2].
  split_and!; [exact H1 | exact H2 |].
  intros Hout. apply receive_elsewhere_snapshot; [done..|].
  intros id Hin. apply tag_topic_elsewhere; [done|]. by intros ->.
Qed.

(** Tag 9 is reported while tag 7 is in view. *)
Lemma tags_do_not_mix_witness :
  wf one_tag ∧ initialized one_tag ∧
  "tx" ∈ tag_fields ∧ 9 ≠ 7 ∧
  eval (GetTarget 7)
    (receive "/XNav/targets/9/tx" (VDouble 1%float) one_tag)
  = Some (Some tag7).
Proof.
  pose proof (reachable_wf _ one_tag_reachable) as Hwf.
  assert (Hi : initialized one_tag) by (vm_compute; reflexivity).
  assert (Hf : "tx" ∈ tag_fields) by (apply list_elem_of_In; cbn; tauto).
  assert (Hne : 9 ≠ 7) by lia.
  split_and!; [exact Hwf | exact Hi | exact Hf | exact Hne |].
  destruct (tags_do_not_mix one_tag 9 7 "tx" (VDouble 1%float) Hwf Hi Hf Hne)
    as (_ & H & _).
  etrans; [exact H|]. vm_compute. reflexivity.
Defined.

Lemma GetOr_receive_field sub f g d n :
  GetOr (Subscribe (GetTopic sub g) 0%float)
    (set_values (<[GetTopic sub f := VDouble d]> (inst_values n)) n)
    0%float
  = if decide (f = g) then d
    else GetOr (Subscribe (GetTopic sub g) 0%float) n 0%float.
Proof.
  unfold GetOr, Subscribe. cbn [sub_topic set_values inst_values].
  case_decide as Hfg.
  - subst g. by rewrite lookup_insert_eq.
  - rewrite lookup_insert_ne; [done|]. by intros ?%GetTopic_inj.
Qed.

Lemma read_subs_receive_field sub id f d n :
  f ∈ tag_fields →
  read_subs id (NewTagSubs sub)
    (set_values (<[GetTopic sub f := VDouble d]> (inst_values n)) n)
  = set_field f d (read_subs id (NewTagSubs sub) n).
Proof.
  intros Hf%list_elem_of_In. unfold read_subs, NewTagSubs, Get.
  cbn [TagSubs.tx TagSubs.ty TagSubs.x TagSubs.y TagSubs.z TagSubs.distance
       TagSubs.yaw TagSubs.pitch TagSubs.roll sub_default Subscribe].
  change (mkSub (Some ?t) 0%float) with (Subscribe t 0%float).
  rewrite !GetOr_receive_field.
  cbn [tag_fields In] in Hf.
  repeat (destruct Hf as [<-|Hf]; [reflexivity|]). done.
Qed.

(** X10.  A number received on a per-tag topic is the number read: after a
    double arrives on [targets/<i>/<field>], [ReadTag(i)] returns the record
    it returned before with that one field replaced by the received value,
    the other eight and the id unchanged; [GetTarget(i)] likewise when [i]
    is in view, and still the empty optional when it is not. *)
Theorem tag_value_round_trip (w : World) (i : Z) (f : string) (d : double) :
  wf w → initialized w → f ∈ tag_fields →
  eval (ReadTag i)
    (receive (GetTopic (GetSubTable (GetTable (table_name (impl w)))
                          ("targets/" +:+ to_string i)) f) (VDouble d) w)
  = fmap (M := option) (set_field f d) (eval (ReadTag i) w) ∧
  eval (GetTarget i)
    (receive (GetTopic (GetSubTable (GetTable (table_name (impl w)))
                          ("targets/" +:+ to_string i)) f) (VDouble d) w)
  = fmap (M := option) (fmap (M := option) (set_field f d))
      (eval (GetTarget i) w).
Proof.
  intros Hwf Hi Hf.
  set (T := GetTopic _ f).
  assert (Hwf' : wf (receive T (VDouble d) w))
    by (by eapply wf_same_impl; [|exact Hwf]).
  assert (Hi' : initialized (receive T (VDouble d) w))
    by (by eapply initialized_same_impl; [|exact Hi]).
  pose proof (initialized_table _ Hi) as Ht.
  assert (Ht' : table (impl (receive T (VDouble d) w))
                = Some (GetTable (table_name (impl w)))) by exact Ht.
  assert (Hids : GetTagIds w = GetTagIds (receive T (VDouble d) w)).
  { assert (Hr : ∀ T', T' ∈ root_topics (GetTable (table_name (impl w))) →
                       inst_values (nt w) !! T'
                       = inst_values (nt (receive T (VDouble d) w)) !! T').
    { intros T' HT'. apply receive_lookup_ne. intros <-.
      exact (tag_topic_not_root _ i f Hf HT'). }
    by destruct (flat_reads_agree w (receive T (VDouble d) w) Hi Hi' eq_refl
                   Hr eq_refl) as (_ & _ & Hids & _). }
  rewrite (ReadTag_eval _ _ _ (proj1 Hwf') Ht'),
    (ReadTag_eval _ _ _ (proj1 Hwf) Ht),
    (eval_GetTarget _ _ _ (proj1 Hwf') Ht'),
    (eval_GetTarget _ _ _ (proj1 Hwf) Ht).
  rewrite <- Hids.
  change (nt (receive T (VDouble d) w))
    with (set_values (<[T := VDouble d]> (inst_values (nt w))) (nt w)).
  subst T. rewrite (read_subs_receive_field _ i f d (nt w) Hf).
  split; [done|]. by case_decide.
Qed.

(** The horizontal angle of tag 7 changes. *)
Lemma tag_value_round_trip_witness :
  wf one_tag ∧ initialized one_tag ∧ "tx" ∈ tag_fields ∧
  eval (GetTarget 7)
    (receive "/XNav/targets/7/tx" (VDouble (-2.5)%float) one_tag)
  = Some (Some (set_field "tx" (-2.5)%float tag7)).
Proof.
  pose proof (reachable_wf _ one_tag_reachable) as Hwf.
  assert (Hi : initialized one_tag) by (vm_compute; reflexivity).
  assert (Hf : "tx" ∈ tag_fields) by (apply list_elem_of_In; cbn; tauto).
  split_and!; [exact Hwf | exact Hi | exact Hf |].
  destruct (tag_value_round_trip one_tag 7 "tx" (-2.5)%float Hwf Hi Hf)
    as [_ H].
  etrans; [exact H|]. vm_compute. reflexivity.
Defined.

(** ** The setters *)

Lemma input_topic_elsewhere tbl T id :
  T ∈ input_topics tbl → T ∉ tag_topics tbl id.
Proof.
  intros Hin Htag. by destruct (tag_topics_not_root _ _ _ Htag) as [_ []].
Qed.

(** X11.  After [Init], each setter is one publication on its own topic
    under [input/]: the value given is the value stored, unchanged, and no
    query returns anything else than before, whichever input is written. *)
Theorem setters_publish_inputs (w : World) :
  wf w → initialized w →
  (∀ a, SetTurretAngle a w
        = receive (GetTopic (GetSubTable (GetTable (table_name (impl w)))
                               "input") "turretAngle") (VDouble a) w) ∧
  (∀ b, SetTurretEnabled b w
        = receive (GetTopic (GetSubTable (GetTable (table_name (impl w)))
                               "input") "turretEnabled") (VBoolean b) w) ∧
  (∀ b, SetMatchMode b w
        = receive (GetTopic (GetSubTable (GetTable (table_name (impl w)))
                               "input") "matchMode") (VBoolean b) w) ∧
  (∀ a, inst_values (nt (SetTurretAngle a w))
          !! GetTopic (GetSubTable (GetTable (table_name (impl w))) "input")
               "turretAngle"
        = Some (VDouble a)) ∧
  (∀ T v, T ∈ input_topics (GetTable (table_name (impl w))) →
     snapshot (receive T v w) = snapshot w ∧
     ∀ id, eval (GetTarget id) (receive T v w) = eval (GetTarget id) w).
Proof.
  intros Hwf Hi. pose proof (initialized_impl _ Hi) as He.
  assert (Ha : ∀ a, SetTurretAngle a w
        = receive (GetTopic (GetSubTable (GetTable (table_name (impl w)))
                               "input") "turretAngle") (VDouble a) w).
  { intros a. unfold SetTurretAngle, Set_, receive. rewrite He at 2. done. }
  split_and!.
  - exact Ha.
  - intros b. unfold SetTurretEnabled, Set_, receive. rewrite He at 2. done.
  - intros b. unfold SetMatchMode, Set_, receive. rewrite He at 2. done.
  - intros a. rewrite Ha. unfold receive. cbn [nt set_values inst_values].
    by rewrite lookup_insert_eq.
  - intros T v HT. split.
    + apply receive_elsewhere_snapshot;
        [done | done | by apply input_topics_not_root |].
      intros id _. by apply input_topic_elsewhere.
    + intros id.
      apply receive_elsewhere_tag;
        [done | done | by apply input_topics_not_root
        | by apply input_topic_elsewhere].
Qed.

(** The turret angle is written while tag 7 is in view. *)
Lemma setters_publish_inputs_witness :
  wf one_tag ∧ initialized one_tag ∧
  inst_values (nt (SetTurretAngle 45%float one_tag))
    !! "/XNav/input/turretAngle" = Some (VDouble 45%float) ∧
  snapshot (SetTurretAngle 45%float one_tag) = snapshot one_tag.
Proof.
  pose proof (reachable_wf _ one_tag_reachable) as Hwf.
  assert (Hi : initialized one_tag) by (vm_compute; reflexivity).
  destruct (setters_publish_inputs one_tag Hwf Hi)
    as (Ha & _ & _ & Hv & Hs).
  split_and!; [exact Hwf | exact Hi | exact (Hv 45%float) |].
  rewrite (Ha 45%float). apply Hs.
  apply list_elem_of_In. cbn. tauto.
Defined.

(** ** Queries change no answer *)

Lemma query_only_cache c w w' :
  is_query c = true → call c w = Some w' → only_cache w w'.
Proof.
  destruct c; try discriminate; intros _; simpl; unfold exec;
    try (intros [= <-]; apply only_cache_refl).
  - destruct (GetPrimaryTarget w) as [[t w1]|] eqn:H; [|done].
    intros [= <-]. by eapply GetPrimaryTarget_only_cache.
  - destruct (GetTarget tag_id w) as [[t w1]|] eqn:H; [|done].
    intros [= <-]. by eapply GetTarget_only_cache.
  - unfold GetAllTargets.
    destruct (GetAllTargets_loop _ _ w) as [[t w1]|] eqn:H; [|done].
    intros [= <-]. by eapply GetAllTargets_loop_only_cache.
Qed.

Lemma only_cache_fields w w' :
  only_cache w w' →
  nt w' = nt w ∧ invoked w' = invoked w ∧
  table_name (impl w') = table_name (impl w) ∧
  table (impl w') = table (impl w).
Proof. unfold only_cache. intros ->. done. Qed.

Lemma only_cache_initialized w w' :
  only_cache w w' → initialized w → initialized w'.
Proof.
  unfold only_cache, initialized. intros H Hi. rewrite H.
  generalize (tag_subs (impl w')). intros m. destruct w as [[] ? ?].
  cbn in *. injection Hi; intros; subst; reflexivity.
Qed.

Lemma pristine_query c w w' :
  pristine w → is_query c = true → call c w = Some w' → w' = w.
Proof.
  intros Hp. destruct c; try discriminate; intros _; simpl; unfold exec;
    try (by intros [= <-]).
  - unfold GetPrimaryTarget. rewrite (pristine_primary _ Hp).
    rewrite decide_True by (by vm_compute). by intros [= <-].
  - rewrite GetTarget_absent; [by intros [= <-]|].
    rewrite (pristine_GetTagIds _ Hp). apply not_elem_of_nil.
  - unfold GetAllTargets. rewrite (pristine_GetTagIds _ Hp).
    by intros [= <-].
Qed.

(** X12.  A query changes no answer: after any query, successful or not in
    finding its tag, every query, [GetTarget] for every id included, returns
    what it would have returned before.  The subscriber sets the query may
    have added to the cache change no later result. *)
Theorem queries_change_no_answer (w w' : World) (c : Call) :
  wf w → is_query c = true → call c w = Some w' →
  snapshot w' = snapshot w ∧
  (∀ id, eval (GetTarget id) w' = eval (GetTarget id) w).
Proof.
  intros Hwf Hq Hc.
  destruct Hwf as [Hcache [Hp|Hi]].
  { by rewrite (pristine_query c w w' Hp Hq Hc). }
  assert (Hwf : wf w) by (split; [done | by right]).
  pose proof (wf_call _ _ _ Hwf Hc) as Hwf'.
  pose proof (query_only_cache _ _ _ Hq Hc) as Hoc.
  pose proof (only_cache_initialized _ _ Hoc Hi) as Hi'.
  destruct (only_cache_fields _ _ Hoc) as (Hnt & _ & Hname & _).
  split_and!.
  - apply snapshot_agree; try done; by rewrite Hnt.
  - intros id.
    assert (Hids : GetTagIds w' = GetTagIds w).
    { assert (Hr : ∀ T, T ∈ root_topics (GetTable (table_name (impl w'))) →
                        inst_values (nt w') !! T = inst_values (nt w) !! T)
        by (intros; by rewrite Hnt).
      assert (Hconn : inst_connections (nt w') = inst_connections (nt w))
        by (by rewrite Hnt).
      by destruct (flat_reads_agree w' w Hi' Hi Hname Hr Hconn)
        as (_ & _ & Hids & _). }
    apply tag_reads_agree; try done. intros. by rewrite Hnt.
Qed.

(** Reading all targets, then asking again. *)
Lemma queries_change_no_answer_witness :
  wf one_tag ∧
  call CallGetAllTargets one_tag
  = Some (default fresh (call CallGetAllTargets one_tag)) ∧
  tag_subs (impl (default fresh (call CallGetAllTargets one_tag)))
  ≠ tag_subs (impl one_tag) ∧
  snapshot (default fresh (call CallGetAllTargets one_tag))
  = snapshot one_tag.
Proof.
  pose proof (reachable_wf _ one_tag_reachable) as Hwf.
  assert (Hc : call CallGetAllTargets one_tag
               = Some (default fresh (call CallGetAllTargets one_tag)))
    by (vm_compute; reflexivity).
  split_and!; [exact Hwf | exact Hc | |].
  - intros Heq. apply (f_equal (λ m, m !! 7)) in Heq. vm_compute in Heq.
    discriminate Heq.
  - exact (proj1 (queries_change_no_answer one_tag _ CallGetAllTargets
                    Hwf eq_refl Hc)).
Defined.

(** ** [Init] again, with any server address *)

Lemma Init_values s w : inst_values (nt (Init s w)) = inst_values (nt w).
Proof.
  unfold Init, Impl_Init, StartClient4, SetServer. cbn [nt].
  case_decide; cbn [inst_client]; by destruct (inst_client (nt w)).
Qed.

Lemma Init_connections s w :
  inst_connections (nt (Init s w)) = inst_connections (nt w).
Proof.
  unfold Init, Impl_Init, StartClient4, SetServer. cbn [nt].
  case_decide; cbn [inst_client]; by destruct (inst_client (nt w)).
Qed.

(** X13.  [Init] may be called again at any time and with any server
    address: an initialised facade keeps its bindings and its cache, no
    query returns anything else than before, and only the transport's
    server address changes, and only when the address given is not
    empty. *)
Theorem Init_again_changes_no_answer (w : World) (s : string) :
  wf w → initialized w →
  impl (Init s w) = impl w ∧
  snapshot (Init s w) = snapshot w ∧
  (∀ id, eval (GetTarget id) (Init s w) = eval (GetTarget id) w) ∧
  inst_server (nt (Init s w))
  = (if decide (s = "") then inst_server (nt w) else s) ∧
  inst_client (nt (Init s w))
  = Some (default "XNavLib" (inst_client (nt w))).
Proof.
  intros Hwf Hi.
  assert (Himpl : impl (Init s w) = impl w) by exact Hi.
  pose proof (wf_Init s _ Hwf) as Hwf'.
  pose proof (initialized_Init s w) as Hi'.
  assert (Hname : table_name (impl (Init s w)) = table_name (impl w))
    by reflexivity.
  assert (Hr : ∀ T,
            T ∈ root_topics (GetTable (table_name (impl (Init s w)))) →
            inst_values (nt (Init s w)) !! T = inst_values (nt w) !! T)
    by (intros; by rewrite Init_values).
  split_and!.
  - exact Himpl.
  - apply snapshot_agree; try done.
    + apply Init_connections.
    + intros. by rewrite Init_values.
  - intros id.
    destruct (flat_reads_agree _ _ Hi' Hi Hname Hr (Init_connections s w))
      as (_ & _ & Hids & _).
    apply tag_reads_agree; try done. intros. by rewrite Init_values.
  - unfold Init, Impl_Init, StartClient4, SetServer. cbn [nt].
    case_decide; cbn [inst_client]; by destruct (inst_client (nt w)).
  - unfold Init, Impl_Init, StartClient4, SetServer. cbn [nt].
    case_decide; cbn [inst_client];
      destruct (inst_client (nt w)) eqn:Hc; cbn; by rewrite ?Hc.
Qed.

(** A server address is given after tag 7 has been looked up. *)
Lemma Init_again_changes_no_answer_witness :
  wf looked_up ∧ initialized looked_up ∧
  is_Some (tag_subs (impl (Init "10.0.0.2" looked_up)) !! 7) ∧
  inst_server (nt (Init "10.0.0.2" looked_up)) = "10.0.0.2" ∧
  snapshot (Init "10.0.0.2" looked_up) = snapshot looked_up.
Proof.
  pose proof (reachable_wf _ looked_up_reachable) as Hwf.
  assert (Hi : initialized looked_up) by (vm_compute; reflexivity).
  destruct (Init_again_changes_no_answer looked_up "10.0.0.2" Hwf Hi)
    as (_ & Hs & _ & Hserver & _).
  split_and!; [exact Hwf | exact Hi | | exact Hserver | exact Hs].
  vm_compute. by eexists.
Defined.

(** ** Narrowing of the id list *)

Lemma static_cast_int_periodic v k :
  static_cast_int (v + k * 2 ^ 32) = static_cast_int v.
Proof.
  unfold static_cast_int.
  replace (v + k * 2 ^ 32 + 2 ^ 31) with (v + 2 ^ 31 + k * 2 ^ 32) by lia.
  by rewrite Z.mod_add.
Qed.

(** X14.  [GetTagIds()] has one element per element of the received list,
    in the same order, each the received value narrowed to [int]: a value
    that fits is returned unchanged; a value outside the range of [int]
    comes out as the [int] with the same low 32 bits, so that what the
    coprocessor sent and what the robot reads can differ. *)
Theorem GetTagIds_narrowing :
  (∀ w, length (GetTagIds w)
        = length (Get (sub_tag_ids (impl w)) (nt w))) ∧
  (∀ w, Forall (λ v, INT_MIN ≤ v ≤ INT_MAX) (GetTagIds w)) ∧
  (∀ w (k : nat) v,
     Get (sub_tag_ids (impl w)) (nt w) !! k = Some v →
     GetTagIds w !! k = Some (static_cast_int v)) ∧
  (∀ w, Forall (λ v, INT_MIN ≤ v ≤ INT_MAX)
          (Get (sub_tag_ids (impl w)) (nt w)) →
        GetTagIds w = Get (sub_tag_ids (impl w)) (nt w)) ∧
  (∀ w raw, initialized w →
     GetTagIds (receive (GetTopic (GetTable (table_name (impl w))) "tagIds")
                  (VIntegerArray raw) w)
     = map static_cast_int raw) ∧
  (∀ v k, static_cast_int (v + k * 2 ^ 32) = static_cast_int v) ∧
  (∀ v, 2 ^ 31 ≤ v < 2 ^ 32 → static_cast_int v = v - 2 ^ 32).
Proof.
  split_and!.
  - intros w. by rewrite GetTagIds_map, length_map.
  - intros w. rewrite GetTagIds_map. apply Forall_forall.
    intros v (x & -> & _)%list_elem_of_fmap. apply static_cast_int_range.
  - intros w k v Hk. by rewrite GetTagIds_map, list_lookup_fmap, Hk.
  - intros w Hfit. rewrite GetTagIds_map. by apply static_cast_int_all_fit.
  - intros w raw Hi. rewrite GetTagIds_map. unfold receive. cbn [impl nt].
    rewrite (initialized_sub_tag_ids _ Hi).
    unfold Get, GetOr, Subscribe.
    cbn [sub_topic set_values inst_values].
    by rewrite lookup_insert_eq.
  - apply static_cast_int_periodic.
  - intros v Hv. unfold static_cast_int.
    replace (v + 2 ^ 31) with (v - 2 ^ 31 + 1 * 2 ^ 32) by lia.
    rewrite Z.mod_add by lia. rewrite Z.mod_small; lia.
Qed.

(** ** Connection state *)

Lemma pristine_not_initialized w : pristine w → ¬ initialized w.
Proof.
  intros (Hn & _)%pristine_fields Hi%initialized_table. congruence.
Qed.

(** X15.  In a reachable world [IsConnected()] is true exactly when [Init]
    has run and the transport reports at least one connection; before
    [Init] it is false whatever the transport reports.  The [nt_connected]
    field of [GetStatus()] is the same value. *)
Theorem IsConnected_iff (w : World) :
  wf w →
  (IsConnected w = true ↔ initialized w ∧ inst_connections (nt w) ≠ []) ∧
  SystemStatus.nt_connected (GetStatus w) = IsConnected w.
Proof.
  intros [_ Hs]. split; [|done]. unfold IsConnected, GetConnections.
  destruct Hs as [Hp|Hi].
  - pose proof (pristine_not_initialized _ Hp) as Hni.
    unfold pristine in Hp. apply (f_equal inst) in Hp.
    destruct w as [[] ? ?]. cbn in Hp. cbn [impl inst]. rewrite Hp.
    split; [done | by intros [? _]].
  - pose proof (f_equal inst (initialized_impl _ Hi)) as Hinst.
    cbn in Hinst. rewrite Hinst. rewrite negb_true_iff, bool_decide_eq_false.
    tauto.
Qed.

(** A connection is there, and the facade has not been initialised. *)
Lemma IsConnected_iff_witness :
  wf late_facade ∧
  inst_connections (nt late_facade) ≠ [] ∧
  IsConnected late_facade = false ∧
  IsConnected (Init0 late_facade) = true.
Proof.
  pose proof (wf_XNav "XNav" (nt late_facade)) as Hwf.
  split_and!; [exact Hwf | by vm_compute | |].
  - destruct (IsConnected late_facade) eqn:Hc; [|reflexivity].
    apply (proj1 (IsConnected_iff late_facade Hwf)) in Hc as [Hi _].
    by apply (pristine_not_initialized late_facade) in Hi.
  - vm_compute. reflexivity.
Defined.

(** ** The detection feeds are read one by one *)

(** X16.  The library relates none of the four detection feeds to another:
    for every flag, count, id list and primary id (of [int] range) there is
    a reachable world in which [HasTarget()], [GetNumTargets()],
    [GetTagIds()] and the primary id are exactly those, however they
    disagree (a flag that is false with ids in view, a count that is not
    the length of the list, a primary id that is not in the list). *)
Theorem detection_feeds_independent (b : bool) (n p : Z) (ids : list Z) :
  INT_MIN ≤ n ≤ INT_MAX → INT_MIN ≤ p ≤ INT_MAX →
  Forall (λ v, INT_MIN ≤ v ≤ INT_MAX) ids →
  ∃ w, reachable w ∧
       HasTarget w = b ∧
       GetNumTargets w = n ∧
       GetTagIds w = ids ∧
       static_cast_int (GetOr (sub_primary_id (impl w)) (nt w) (-1)) = p ∧
       (p < 0 → eval GetPrimaryTarget w = Some TagResult.default).
Proof.
  intros Hn Hp Hids.
  set (es := [ Api CallInit0;
               Receive "/XNav/hasTarget" (VBoolean b);
               Receive "/XNav/numTargets" (VInteger n);
               Receive "/XNav/tagIds" (VIntegerArray ids);
               Receive "/XNav/primaryTagId" (VInteger p) ]).
  assert (Hrun : run es fresh = Some (after es)) by reflexivity.
  assert (Hprim : GetOr (sub_primary_id (impl (after es))) (nt (after es))
                    (-1) = p) by (vm_compute; reflexivity).
  exists (after es). split_and!.
  - by eapply after_reachable.
  - vm_compute. reflexivity.
  - unfold GetNumTargets.
    assert (Get (sub_num_targets (impl (after es))) (nt (after es)) = n)
      as -> by (vm_compute; reflexivity).
    by apply static_cast_int_fits.
  - rewrite GetTagIds_map.
    assert (Get (sub_tag_ids (impl (after es))) (nt (after es)) = ids)
      as -> by (vm_compute; reflexivity).
    by apply static_cast_int_all_fit.
  - rewrite Hprim. by apply static_cast_int_fits.
  - intros Hneg. unfold eval. rewrite GetPrimaryTarget_negative; [done|].
    rewrite Hprim, static_cast_int_fits; done.
Qed.

(** No target flagged, a count of five, tag 7 in the list, tag 3 primary. *)
Lemma detection_feeds_independent_witness :
  (INT_MIN ≤ 5 ≤ INT_MAX) ∧ (INT_MIN ≤ 3 ≤ INT_MAX) ∧
  Forall (λ v, INT_MIN ≤ v ≤ INT_MAX) [7] ∧
  ∃ w, reachable w ∧ HasTarget w = false ∧ GetNumTargets w = 5 ∧
       GetTagIds w = [7] ∧
       static_cast_int (GetOr (sub_primary_id (impl w)) (nt w) (-1)) = 3.
Proof.
  assert (H5 : INT_MIN ≤ 5 ≤ INT_MAX) by (unfold INT_MIN, INT_MAX; lia).
  assert (H3 : INT_MIN ≤ 3 ≤ INT_MAX) by (unfold INT_MIN, INT_MAX; lia).
  assert (H7 : Forall (λ v, INT_MIN ≤ v ≤ INT_MAX) [7])
    by (repeat constructor; unfold INT_MIN, INT_MAX; lia).
  split_and!; [apply H5 | apply H5 | apply H3 | apply H3 | exact H7 |].
  destruct (detection_feeds_independent false 5 3 [7] H5 H3 H7)
    as (w & Hr & Hh & Hc & Hi & Hpr & _).
  by exists w.
Defined.
